(** * monorepo-ci-tools: git queries and the workspace version planner

    A shallow embedding of [src/utils/git.ts] and [src/utils/workspaces.ts].

    Every [async] function of the source becomes a computation in the monad
    [M]: it may throw (a rejected promise) and it appends the child processes
    it spawns to a log.  What a spawned command does is not decided here: it
    is read from the environment [Env], together with the other things the
    source takes from outside (the working directory, the platform, bolt's
    package discovery, the commit analyser).

    Of the two files only [toWorkspacesRunOptions] is left out: it does
    nothing but call two helpers of bolt.  The packages execa, semver,
    p-locate and path are not part of the sources: [execa] with the final
    newline it strips, [semver.inc], [pLocate] and a POSIX [path.resolve] are
    written out here after their documented behaviour. *)

From Stdlib Require Import ZArith NArith Ascii DecimalString.
From stdpp Require Import base option list gmap strings.

Local Open Scope Z_scope.
Local Open Scope stdpp_scope.

#[local] Arguments String.append !_ _ / : simpl nomatch.

(** ** JavaScript strings *)

(** A string that may also be [null] or [undefined], as the source's
    variables of declared type [string] are. *)
Inductive jsstring :=
| JNull
| JUndefined
| JStr (s : string).

#[global] Instance jsstring_eq_dec : EqDecision jsstring.
Proof. solve_decision. Defined.

Coercion JStr : string >-> jsstring.

Module Js.

(** White space as [String.prototype.trim] sees it, among code units below
    256: TAB, LF, VT, FF, CR, SPACE and NBSP. *)
Definition is_whitespace (c : ascii) : bool :=
  let n := nat_of_ascii c in
  ((9 <=? n) && (n <=? 13) || (n =? 32) || (n =? 160))%nat.

Fixpoint trimStart (s : string) : string :=
  match s with
  | EmptyString => EmptyString
  | String c s' => if is_whitespace c then trimStart s' else s
  end.

Fixpoint trimEnd (s : string) : string :=
  match s with
  | EmptyString => EmptyString
  | String c s' =>
      match trimEnd s' with
      | EmptyString => if is_whitespace c then EmptyString else String c EmptyString
      | t => String c t
      end
  end.

(** [s.trim()] *)
Definition trim (s : string) : string := trimEnd (trimStart s).

(** [s.split(sep)] for a separator of one character, the only kind the
    source uses (['\n'], ['/'], ['\\']). *)
Fixpoint split (sep : ascii) (s : string) : list string :=
  match s with
  | EmptyString => [EmptyString]
  | String c s' =>
      if Ascii.eqb c sep then EmptyString :: split sep s'
      else match split sep s' with
           | [] => [String c EmptyString]
           | h :: t => String c h :: t
           end
  end.

(** [s.startsWith(p)] *)
Fixpoint startsWith (s p : string) {struct p} : bool :=
  match p with
  | EmptyString => true
  | String a p' =>
      match s with
      | EmptyString => false
      | String b s' => Ascii.eqb a b && startsWith s' p'
      end
  end.

(** [s.substring(n)]: [s] without its first [n] characters. *)
Fixpoint drop (n : nat) (s : string) : string :=
  match n, s with
  | O, _ => s
  | S _, EmptyString => EmptyString
  | S n', String _ s' => drop n' s'
  end.

(** [s.includes(p)]: [p] occurs in [s] at some position. *)
Fixpoint includes (s p : string) : bool :=
  startsWith s p
  || match s with
     | EmptyString => false
     | String _ s' => includes s' p
     end.

(** [s.replace(p, '')] with a string pattern: the first occurrence of [p]
    is removed, the others stay. *)
Fixpoint remove_first (s p : string) : string :=
  if startsWith s p then drop (String.length p) s
  else match s with
       | EmptyString => EmptyString
       | String c s' => String c (remove_first s' p)
       end.

(** [arr[0]] *)
Definition first (l : list string) : jsstring :=
  match l with
  | [] => JUndefined
  | x :: _ => JStr x
  end.

(** [arr[arr.length - 1]] *)
Definition at_last (l : list string) : jsstring :=
  match last l with
  | None => JUndefined
  | Some x => JStr x
  end.

Definition LF : ascii := ascii_of_nat 10.

(** Every character of [s] satisfies [p]; some character does. *)
Fixpoint all_chars (p : ascii -> bool) (s : string) : bool :=
  match s with
  | EmptyString => true
  | String c s' => p c && all_chars p s'
  end.

Fixpoint any_char (p : ascii -> bool) (s : string) : bool :=
  match s with
  | EmptyString => false
  | String c s' => p c || any_char p s'
  end.

End Js.

(** ** Child processes, errors and the monad of the [async] functions *)

(** How a spawned child ended. *)
Inductive child_result :=
| Exit (code : Z) (stdout : string)
| Killed (signal : string)
| SpawnError (errno : string).

(** What a rejected promise carries. *)
Inductive error :=
| Error (message : string)          (* [throw Error(message)] *)
| ExecaError (r : child_result)     (* execa's rejection for a failed child *)
| TypeError (message : string)      (* a property read on [undefined] *)
| ExternalError (message : string). (* thrown by a dependency *)

(** [error.code === 1].  execa sets [error.code] to the exit code of the
    child when that is a positive number; for a child that was killed or
    never started it is not a number. *)
Definition code_is_1 (e : error) : bool :=
  match e with
  | ExecaError (Exit 1 _) => true
  | _ => false
  end.

Inductive outcome (A : Type) :=
| Ok (a : A)
| Throw (e : error).
Arguments Ok {A} a.
Arguments Throw {A} e.

(** One spawned command: the file and its arguments. *)
Definition command : Type := string * list jsstring.

(** The commands spawned so far, oldest first. *)
Definition log : Type := list command.

Definition M (A : Type) : Type := log -> outcome A * log.

Definition ret {A} (a : A) : M A := fun l => (Ok a, l).

Definition throw {A} (e : error) : M A := fun l => (Throw e, l).

Definition bind {A B} (m : M A) (k : A -> M B) : M B :=
  fun l =>
    match m l with
    | (Ok a, l') => k a l'
    | (Throw e, l') => (Throw e, l')
    end.

(** [try { m } catch (e) { h e }] *)
Definition try_catch {A} (m : M A) (h : error -> M A) : M A :=
  fun l =>
    match m l with
    | (Ok a, l') => (Ok a, l')
    | (Throw e, l') => h e l'
    end.

Notation "'let*' x ':=' m 'in' k" := (bind m (fun x => k))
  (at level 10, x name, m at level 100, k at level 200).

(** Method chaining on arrays: [arr.f(...)] reads [arr |> f ...]. *)
Notation "x |> f" := (f x) (at level 45, left associativity, only parsing).

(** A computation that cannot throw or spawn, lifted. *)
Definition of_outcome {A} (o : outcome A) : M A := fun l => (o, l).

(** ** The environment *)

(** A package found by bolt.  [oid] stands for the identity of the
    JavaScript object, which [Array.prototype.indexOf] compares. *)
Record IWorkspace := {
  oid : nat;
  dir : string;
  getName : string;
  getVersion : string;
}.

Record IFilterOpts := {
  only : option string;
  ignore : option string;
  onlyFs : option string;
  ignoreFs : option string;
}.

Record Env := {
  (** what running [file args] does in the repository: how the child ends
      and what it prints, to the last character *)
  child : string -> list jsstring -> child_result;
  (** [process.cwd()] *)
  cwd : string;
  (** [os.platform() === 'win32'] *)
  isWin : bool;
  (** [path.resolve(file)] *)
  path_resolve : string -> string;
  (** [Project.init(process.cwd())] followed by [project.getPackages()] *)
  project_packages : outcome (list IWorkspace);
  (** [project.filterPackages(packages, opts)] *)
  filterPackages : list IWorkspace -> IFilterOpts -> list IWorkspace;
  (** [analyzeCommitsSinceRef(ref, folder)]: imported by workspaces.ts from
      ./git, where it is not defined; kept as a parameter. *)
  analyzeCommitsSinceRef : jsstring -> string -> M jsstring;
}.

(** [path.sep] *)
Definition path_sep (env : Env) : string := if isWin env then "\" else "/".

(** ** execa *)

(** [s] without its last character when that is [c]. *)
Fixpoint chop (c : ascii) (s : string) : string :=
  match s with
  | EmptyString => EmptyString
  | String x EmptyString => if Ascii.eqb x c then EmptyString else s
  | String x s' => String x (chop c s')
  end.

Definition CR : ascii := ascii_of_nat 13.

(** execa does not hand on the output as the child printed it: by default
    (the option [stripFinalNewline], [stripEof] in older versions) it takes
    one final newline off, that is a line feed at the end and then a carriage
    return at the end. *)
Definition strip_final_newline (s : string) : string := chop CR (chop Js.LF s).

(** The child of [file args] as execa reports it, in the result it resolves
    with and in the error it rejects with alike: the way it ended, and its
    output without the final newline. *)
Definition spawn (env : Env) (file : string) (args : list jsstring) : child_result :=
  match child env file args with
  | Exit code stdout => Exit code (strip_final_newline stdout)
  | r => r
  end.

(** [execa(file, args)], awaited, then [.stdout]: resolves with the output
    of a child that exits with 0, as [spawn] reports it, and rejects
    otherwise. *)
Definition execa (env : Env) (file : string) (args : list jsstring) : M string :=
  fun l =>
    match spawn env file args with
    | Exit 0 out => (Ok out, l ++ [(file, args)])
    | r => (Throw (ExecaError r), l ++ [(file, args)])
    end.

(** ** src/utils/git.ts *)

Section Git.
Context (env : Env).

Definition getRef (name : string) : M jsstring :=
  try_catch
    (let* stdout := execa env "git" [JStr "rev-parse"; JStr name] in
     ret (Js.first (Js.split Js.LF (Js.trim stdout))))
    (fun _ => ret JNull).

Definition getMasterRef : M jsstring := getRef "master".

Definition getLatestTag : M jsstring :=
  try_catch
    (let* stdout := execa env "git" [JStr "describe"; JStr "--tags"; JStr "--abbrev=0"] in
     ret (Js.first (Js.split Js.LF (Js.trim stdout))))
    (fun _ => ret JNull).

Definition getChangedFilesSinceRef (ref : jsstring) (fullPath : bool)
  : M (list string) :=
  if decide (ref = JNull) then throw (Error "Current ref is undefined")
  else
    let* cmd := execa env "git" [JStr "merge-base"; ref; JStr "HEAD"] in
    let divergedAt := Js.trim cmd in
    let* cmd := execa env "git" [JStr "diff"; JStr "--name-only"; JStr divergedAt] in
    let files := Js.split Js.LF (Js.trim cmd) in
    if negb fullPath then ret files
    else ret (map (fun file => path_resolve env file) files).

Definition getChangedFilesSinceMaster (fullPath : bool) : M (list string) :=
  let* ref := getMasterRef in
  getChangedFilesSinceRef ref fullPath.

Definition getFirstCommitByWorkspaceFolder (workspaceFolder : string)
  : M string :=
  let* stdout := execa env "git"
    [JStr "log"; JStr "--reverse"; JStr "--pretty=format:%H"; JStr "--";
     JStr workspaceFolder] in
  match Js.first (Js.split Js.LF stdout) with
  | JStr s => ret (Js.trim s)
  | _ => throw (TypeError "Cannot read property 'trim' of undefined")
  end.

Definition getTags (isRevert : bool) : M (list string) :=
  let execaOpts := [JStr "tag"] in
  let execaOpts :=
    if isRevert then execaOpts ++ [JStr "--sort=-refname"] else execaOpts in
  let* stdout := execa env "git" execaOpts in
  ret (map (fun tag => Js.trim tag) (Js.split Js.LF stdout)).

Definition isRefInHistory (ref : jsstring) : M bool :=
  try_catch
    (let* _ := execa env "git"
       [JStr "merge-base"; JStr "--is-ancestor"; ref; JStr "HEAD"] in
     ret true)
    (fun error => if code_is_1 error then ret false else throw error).

End Git.

(** ** The semver package: [semver.inc]

    workspaces.ts calls [semver.inc(currentVersion, releaseType)] of the npm
    package semver.  This is that function with its two-argument call (strict
    parsing, no prerelease identifier): it answers [null] ([None]) where the
    package throws inside, that is for a version string that is not a semantic
    version and for a label that names no increment. *)

Module Semver.

Inductive identifier :=
| INum (n : N)
| IStr (s : string).

Record SemVer := {
  major : N;
  minor : N;
  patch : N;
  prerelease : list identifier;
}.

Definition MAX_LENGTH : nat := 256.
Definition MAX_SAFE_INTEGER : N := 9007199254740991.

Definition is_digit (c : ascii) : bool :=
  let n := nat_of_ascii c in ((48 <=? n) && (n <=? 57))%nat.

Definition is_letter_or_hyphen (c : ascii) : bool :=
  let n := nat_of_ascii c in
  ((65 <=? n) && (n <=? 90) || (97 <=? n) && (n <=? 122) || (n =? 45))%nat.

(** The value of a string of digits (the unary [+] of the package). *)
Fixpoint digits_value (acc : N) (s : string) : N :=
  match s with
  | EmptyString => acc
  | String c s' => digits_value (acc * 10 + N.of_nat (nat_of_ascii c - 48)) s'
  end.

(** A numeric identifier: [0], or digits that do not start with [0]. *)
Definition is_numeric_identifier (s : string) : bool :=
  match s with
  | EmptyString => false
  | String c EmptyString => is_digit c
  | String c s' => is_digit c && negb (Ascii.eqb c "0") && Js.all_chars is_digit s'
  end.

(** A non-numeric identifier: letters, digits and hyphens, with at least
    one letter or hyphen. *)
Definition is_nonnumeric_identifier (s : string) : bool :=
  Js.all_chars (fun c => is_digit c || is_letter_or_hyphen c) s
  && Js.any_char is_letter_or_hyphen s.

(** A build identifier: one or more letters, digits and hyphens. *)
Definition is_build_identifier (s : string) : bool :=
  match s with
  | EmptyString => false
  | _ => Js.all_chars (fun c => is_digit c || is_letter_or_hyphen c) s
  end.

(** The part of [s] before the first character that satisfies [p], and the
    rest from that character on. *)
Fixpoint break_at (p : ascii -> bool) (s : string) : string * string :=
  match s with
  | EmptyString => (EmptyString, EmptyString)
  | String c s' =>
      if p c then (EmptyString, s)
      else let '(a, b) := break_at p s' in (String c a, b)
  end.

Definition parse_main (id : string) : option N :=
  if is_numeric_identifier id then
    let n := digits_value 0 id in
    if (n <=? MAX_SAFE_INTEGER)%N then Some n else None
  else None.

(** A prerelease identifier: one made of digits becomes a number when it
    is below [MAX_SAFE_INTEGER], every other one stays a string. *)
Definition parse_prerelease_identifier (id : string) : option identifier :=
  if is_numeric_identifier id then
    let n := digits_value 0 id in
    Some (if (n <? MAX_SAFE_INTEGER)%N then INum n else IStr id)
  else if is_nonnumeric_identifier id then Some (IStr id)
  else None.

Definition dot : ascii := ".".

(** The match of the package's [FULL] pattern on the trimmed string, and
    the fields the constructor reads off it.  The pattern is: an optional
    [v]; three numeric identifiers separated by dots; optionally a hyphen
    and prerelease identifiers separated by dots; optionally a plus sign and
    build identifiers separated by dots; then the end of the string. *)
Definition parse (version : string) : option SemVer :=
  if (MAX_LENGTH <? String.length version)%nat then None
  else
    let s := Js.trim version in
    let s := match s with String "v" s' => s' | _ => s end in
    let '(core, rest) :=
      break_at (fun c => Ascii.eqb c "-" || Ascii.eqb c "+") s in
    match Js.split dot core with
    | [ma; mi; pa] =>
        ma ← parse_main ma;
        mi ← parse_main mi;
        pa ← parse_main pa;
        let '(pre, build) :=
          match rest with
          | String "-" r =>
              let '(p, b) := break_at (fun c => Ascii.eqb c "+") r in (Some p, b)
          | _ => (None, rest)
          end in
        pre ← match pre with
              | None => Some []
              | Some p => mapM parse_prerelease_identifier (Js.split dot p)
              end;
        match build with
        | EmptyString => Some (Build_SemVer ma mi pa pre)
        | String _ b =>
            if forallb is_build_identifier (Js.split dot b)
            then Some (Build_SemVer ma mi pa pre)
            else None
        end
    | _ => None
    end.

Definition show_N (n : N) : string := NilEmpty.string_of_uint (N.to_uint n).

Definition show_identifier (i : identifier) : string :=
  match i with
  | INum n => show_N n
  | IStr s => s
  end.

(** [ids.join('.')] *)
Fixpoint join_dot (ids : list string) : string :=
  match ids with
  | [] => EmptyString
  | [x] => x
  | x :: rest => x +:+ "." +:+ join_dot rest
  end.

(** [SemVer.prototype.format] *)
Definition format (v : SemVer) : string :=
  let core := show_N (major v) +:+ "." +:+ show_N (minor v) +:+ "." +:+ show_N (patch v) in
  match prerelease v with
  | [] => core
  | ids => core +:+ "-" +:+ join_dot (map show_identifier ids)
  end.

(** The loop of the ['pre'] case, over the identifiers from the last one
    backwards: the first number met is incremented; [None] when there is
    no number. *)
Fixpoint bump_last_number (rev_ids : list identifier) : option (list identifier) :=
  match rev_ids with
  | [] => None
  | INum n :: rest => Some (INum (n + 1) :: rest)
  | IStr s :: rest => (fun r => IStr s :: r) <$> bump_last_number rest
  end.

Definition inc_pre (v : SemVer) : SemVer :=
  match prerelease v with
  | [] => Build_SemVer (major v) (minor v) (patch v) [INum 0]
  | ids =>
      match bump_last_number (rev ids) with
      | Some r => Build_SemVer (major v) (minor v) (patch v) (rev r)
      | None => Build_SemVer (major v) (minor v) (patch v) (ids ++ [INum 0])
      end
  end.

Definition inc_patch (v : SemVer) : SemVer :=
  match prerelease v with
  | [] => Build_SemVer (major v) (minor v) (patch v + 1) []
  | _ => Build_SemVer (major v) (minor v) (patch v) []
  end.

Inductive ReleaseType :=
| Major | Premajor | Minor | Preminor | Patch | Prepatch | Prerelease | Pre.

(** The labels of the [switch] in [SemVer.prototype.inc]. *)
Definition release_of_label (release : jsstring) : option ReleaseType :=
  match release with
  | JStr s =>
      if bool_decide (s = "major") then Some Major
      else if bool_decide (s = "premajor") then Some Premajor
      else if bool_decide (s = "minor") then Some Minor
      else if bool_decide (s = "preminor") then Some Preminor
      else if bool_decide (s = "patch") then Some Patch
      else if bool_decide (s = "prepatch") then Some Prepatch
      else if bool_decide (s = "prerelease") then Some Prerelease
      else if bool_decide (s = "pre") then Some Pre
      else None
  | _ => None
  end.

(** [SemVer.prototype.inc(release)] *)
Definition inc_version (v : SemVer) (release : ReleaseType) : SemVer :=
  match release with
  | Premajor => inc_pre (Build_SemVer (major v + 1) 0 0 [])
  | Preminor => inc_pre (Build_SemVer (major v) (minor v + 1) 0 [])
  | Prepatch =>
      inc_pre (inc_patch (Build_SemVer (major v) (minor v) (patch v) []))
  | Prerelease =>
      match prerelease v with
      | [] => inc_pre (inc_patch v)
      | _ => inc_pre v
      end
  | Major =>
      let bump :=
        negb (minor v =? 0)%N || negb (patch v =? 0)%N
        || bool_decide (prerelease v = []) in
      Build_SemVer (if bump then major v + 1 else major v) 0 0 []
  | Minor =>
      let bump := negb (patch v =? 0)%N || bool_decide (prerelease v = []) in
      Build_SemVer (major v) (if bump then minor v + 1 else minor v) 0 []
  | Patch => inc_patch v
  | Pre => inc_pre v
  end.

(** [semver.inc(version, release)] *)
Definition inc (version : string) (release : jsstring) : option string :=
  v ← parse version;
  r ← release_of_label release;
  Some (format (inc_version v r)).

(** *** Precedence (semver.org, item 11)

    What it means for one version to come before another; this is the rule
    of the specification of semantic versioning, not code of the package. *)

(** The number an identifier stands for when it is made of digits. *)
Definition numeric_value (i : identifier) : option N :=
  match i with
  | INum n => Some n
  | IStr s =>
      if Js.all_chars is_digit s && negb (bool_decide (s = ""))
      then Some (digits_value 0 s) else None
  end.

(** Numeric identifiers compare as numbers and come before the others, which
    compare as strings. *)
Definition identifier_ltb (a b : identifier) : bool :=
  match numeric_value a, numeric_value b with
  | Some n, Some m => (n <? m)%N
  | Some _, None => true
  | None, Some _ => false
  | None, None => String.ltb (show_identifier a) (show_identifier b)
  end.

(** Prerelease identifiers are compared from the left; when one list runs
    out first, the longer one is the later. *)
Inductive pre_lt : list identifier -> list identifier -> Prop :=
| pre_lt_longer x r : pre_lt [] (x :: r)
| pre_lt_head x y r1 r2 : identifier_ltb x y = true -> pre_lt (x :: r1) (y :: r2)
| pre_lt_next x r1 r2 : pre_lt r1 r2 -> pre_lt (x :: r1) (x :: r2).

Definition core_lt (v1 v2 : SemVer) : Prop :=
  (major v1 < major v2)%N
  \/ (major v1 = major v2 /\ (minor v1 < minor v2)%N)
  \/ (major v1 = major v2 /\ minor v1 = minor v2 /\ (patch v1 < patch v2)%N).

(** [v1] comes before [v2]: by the numbers; or, the numbers being the same,
    as a prerelease of the release [v2], or by the prerelease identifiers. *)
Definition precedes (v1 v2 : SemVer) : Prop :=
  core_lt v1 v2
  \/ (major v1 = major v2 /\ minor v1 = minor v2 /\ patch v1 = patch v2
      /\ match prerelease v1, prerelease v2 with
         | [], _ => False
         | _ :: _, [] => True
         | p1, p2 => pre_lt p1 p2
         end).

End Semver.

(** ** Promise combinators *)

(** Every computation of [ms] is started and runs to its end, whatever the
    others do; what each one settled to is kept in the order of [ms]. *)
Fixpoint all_settled {A} (ms : list (M A)) : log -> list (outcome A) * log :=
  fun l =>
    match ms with
    | [] => ([], l)
    | m :: rest =>
        let '(o, l1) := m l in
        let '(os, l2) := all_settled rest l1 in
        (o :: os, l2)
    end.

(** The values of outcomes that are all fulfilled; otherwise a rejection. *)
Fixpoint collect {A} (os : list (outcome A)) : outcome (list A) :=
  match os with
  | [] => Ok []
  | Throw e :: _ => Throw e
  | Ok a :: rest =>
      match collect rest with
      | Ok vs => Ok (a :: vs)
      | Throw e => Throw e
      end
  end.

(** [Promise.all(promises)]: fulfilled with all the values, in the order of
    the promises, when every promise is fulfilled, and rejected when one is
    rejected.  The values do not depend on how the promises run, the result
    of a child being a function of its command alone.  Two things do, and are
    fixed here to one of the runs the program can make, the one in which
    every promise runs to its end before the next one starts: the order in
    which the children of different promises enter the log (the program
    starts all the promises before any child has ended), and, with several
    rejections, which one is thrown (in the program the one that settles
    first in time, here the first of the list). *)
Definition Promise_all {A} (promises : list (M A)) : M (list A) :=
  fun l =>
    let '(os, l') := all_settled promises l in
    (collect os, l').

(** The ordered check of p-locate: the elements are looked at one after the
    other; the first whose test gave [true] is the result, a rejected test
    met before that rejects the search, and [undefined] is the result when
    the elements run out. *)
Fixpoint pLocate_check (items : list (string * outcome bool)) : outcome jsstring :=
  match items with
  | [] => Ok JUndefined
  | (el, Ok true) :: _ => Ok (JStr el)
  | (_, Ok false) :: rest => pLocate_check rest
  | (_, Throw e) :: _ => Throw e
  end.

(** [pLocate(input, tester, { preserveOrder: true })] of the package
    p-locate, with its default unlimited concurrency: the tests of all the
    elements are started, then the elements are checked in order. *)
Definition pLocate (input : list string) (tester : string -> M bool) : M jsstring :=
  fun l =>
    let '(os, l') := all_settled (map tester input) l in
    (pLocate_check (zip input os), l').

(** ** src/utils/workspaces.ts *)

(** [IWorkspaceChange]: an object from workspace directories to the names of
    changed files.  [IWorkspaceVersion]: an object from a workspace name to
    its next version, [None] being [null]. *)

(** [a === b] on values that are a workspace object or [undefined]. *)
Definition same_object (a b : option IWorkspace) : bool :=
  match a, b with
  | Some x, Some y => bool_decide (oid x = oid y)
  | None, None => true
  | _, _ => false
  end.

(** [arr.indexOf(x)] *)
Fixpoint indexOf (arr : list (option IWorkspace)) (x : option IWorkspace) : Z :=
  match arr with
  | [] => -1
  | y :: rest =>
      if same_object y x then 0
      else let i := indexOf rest x in if i <? 0 then -1 else i + 1
  end.

(** [arr.filter((x, idx, arr) => p x idx arr)] *)
Definition filter_indexed {A} (p : A -> Z -> list A -> bool) (arr : list A) : list A :=
  (imap (fun idx x => (x, Z.of_nat idx)) arr)
    |> List.filter (fun '(x, idx) => p x idx arr)
    |> map fst.

Section Workspaces.
Context (env : Env).

Definition getWorkspaces (opts : IFilterOpts) : M (list IWorkspace) :=
  let* packages := of_outcome (project_packages env) in
  let filtered := filterPackages env packages opts in
  ret filtered.

Definition fileNameToPackage (fileName : string) (allPackages : list IWorkspace)
  : option IWorkspace :=
  List.find (fun pkg => Js.startsWith fileName (dir pkg +:+ path_sep env)) allPackages.

Definition fileExistsInPackage (fileName : string) (allPackages : list IWorkspace)
  : bool :=
  match fileNameToPackage fileName allPackages with
  | Some _ => true
  | None => false
  end.

Definition getWorkspacesChangedSinceRef (ref : jsstring) (opts : IFilterOpts)
  : M (list (option IWorkspace)) :=
  let* changedFiles := getChangedFilesSinceRef env ref true in
  let* allPackages := getWorkspaces opts in
  ret (changedFiles
         (* ignore deleted files *)
         |> List.filter (fun fileName => fileExistsInPackage fileName allPackages)
         |> map (fun fileName => fileNameToPackage fileName allPackages)
         (* filter, so that we have only unique packages *)
         |> filter_indexed (fun pkg idx packages => indexOf packages pkg =? idx)).

(** The separator [isWin ? '\\' : '/'] of the split. *)
Definition split_sep : ascii := if isWin env then "\" else "/".

Definition getChangesFromLastTagByWorkspaces (opts : IFilterOpts)
  : M (gmap string (list jsstring)) :=
  let* tags := getTags env true in
  let* tag := pLocate tags (fun t => isRefInHistory env (JStr t)) in
  let* changedFiles := getChangedFilesSinceRef env tag true in
  let* allPackages := getWorkspaces opts in
  let result := ∅ in
  ret (foldl
         (fun result workspace =>
            let changes :=
              List.filter (fun changeFilePath => Js.includes changeFilePath (dir workspace))
                          changedFiles in
            <[dir workspace :=
                map (fun change =>
                       let parts := Js.split split_sep change in
                       Js.at_last parts) changes]> result)
         result allPackages).

Definition getNextVersion (tags : list string) (workspace : IWorkspace)
  : M (gmap string (option string)) :=
  let wName := getName workspace in
  let folderName := Js.remove_first (dir workspace) (cwd env +:+ path_sep env) in
  let* basis :=
    if (length tags =? 0)%nat then
      let* ref := getFirstCommitByWorkspaceFolder env folderName in
      let currentVersion := getVersion workspace in
      ret (JStr ref, currentVersion)
    else
      let* ref := pLocate tags (fun t => isRefInHistory env (JStr t)) in
      match ref with
      | JStr r =>
          let currentVersion := Js.remove_first r (wName +:+ "-") in
          ret (ref, currentVersion)
      | _ => throw (TypeError "Cannot read property 'replace' of undefined")
      end in
  let '(ref, currentVersion) := basis in
  let* releaseType := analyzeCommitsSinceRef env ref folderName in
  let next := Semver.inc currentVersion releaseType in
  ret {[ wName := next ]}.

Definition getNextVersionsByWorkspaces (workspaces : list IWorkspace)
  : M (list (gmap string (option string))) :=
  let* tags := getTags env true in
  let promises :=
    map (fun workspace =>
           let name := getName workspace in
           let workspaceTags := List.filter (fun tag => Js.startsWith tag name) tags in
           getNextVersion workspaceTags workspace)
        workspaces in
  Promise_all promises.

End Workspaces.

(** ** Node's [path.resolve] on POSIX

    One argument, resolved against a working directory that is absolute (as
    [process.cwd()] is): the segments between slashes are walked from the
    left, empty ones and [.] are skipped and [..] drops the segment before
    it. *)

Module Path.

Fixpoint normalize (stack : list string) (segments : list string) : list string :=
  match segments with
  | [] => rev stack
  | seg :: rest =>
      if bool_decide (seg = "") || bool_decide (seg = ".") then normalize stack rest
      else if bool_decide (seg = "..") then normalize (tail stack) rest
      else normalize (seg :: stack) rest
  end.

Fixpoint join_slash (segments : list string) : string :=
  match segments with
  | [] => EmptyString
  | [x] => x
  | x :: rest => x +:+ "/" +:+ join_slash rest
  end.

Definition is_absolute (p : string) : bool :=
  match p with
  | String "/" _ => true
  | _ => false
  end.

Definition posix_resolve (cwd file : string) : string :=
  let full :=
    if is_absolute file then file
    else if bool_decide (file = "") then cwd
    else cwd +:+ "/" +:+ file in
  "/" +:+ join_slash (normalize [] (Js.split "/" full)).

End Path.

(** ** The commands the source spawns *)

Definition git_rev_parse (name : string) : command :=
  ("git", [JStr "rev-parse"; JStr name]).

Definition git_merge_base (ref : jsstring) : command :=
  ("git", [JStr "merge-base"; ref; JStr "HEAD"]).

Definition git_diff (divergedAt : string) : command :=
  ("git", [JStr "diff"; JStr "--name-only"; JStr divergedAt]).

Definition git_is_ancestor (ref : jsstring) : command :=
  ("git", [JStr "merge-base"; JStr "--is-ancestor"; ref; JStr "HEAD"]).

Definition git_tags_newest_first : command :=
  ("git", [JStr "tag"; JStr "--sort=-refname"]).

Definition git_first_commit (folder : string) : command :=
  ("git", [JStr "log"; JStr "--reverse"; JStr "--pretty=format:%H"; JStr "--";
           JStr folder]).

(** What execa reports of a command: how its child ended, and the output
    without the final newline. *)
Definition run (env : Env) (c : command) : child_result := spawn env c.1 c.2.

(** What the child of a command did and printed, final newline and all. *)
Definition printed (env : Env) (c : command) : child_result := child env c.1 c.2.

(** ** Notions the statements use *)

(** A commit hash as [git rev-parse] prints it: hexadecimal digits, at least
    one. *)
Definition is_hex_digit (c : ascii) : bool :=
  let n := nat_of_ascii c in
  ((48 <=? n) && (n <=? 57) || (97 <=? n) && (n <=? 102))%nat.

Definition is_commit_hash (s : string) : bool :=
  negb (bool_decide (s = "")) && Js.all_chars is_hex_digit s.

(** [d] is a path-prefix of [file]: [file] is [d], the separator, and more. *)
Definition path_prefix_of (env : Env) (d file : string) : Prop :=
  exists rest, file = (d +:+ path_sep env) +:+ rest.

(** [p] occurs in [s]. *)
Definition contains (s p : string) : Prop :=
  exists a b, s = a +:+ p +:+ b.

(** [base] is the last segment of [path]: what follows the last separator,
    or all of [path] when it has none. *)
Definition basename_of (sep : ascii) (path base : string) : Prop :=
  Js.all_chars (fun c => negb (Ascii.eqb c sep)) base = true
  /\ (path = base \/ exists d, path = d +:+ String sep base).

(** The workspaces of [l] in the order in which they are first seen, one per
    object; [seen] holds the identities met so far. *)
Fixpoint first_seen (seen : list nat) (l : list IWorkspace) : list IWorkspace :=
  match l with
  | [] => []
  | w :: rest =>
      if bool_decide (oid w ∈ seen) then first_seen seen rest
      else w :: first_seen (oid w :: seen) rest
  end.

(** The increments of semantic versioning (semver.org, items 6 to 9), read
    off the numbers of the two versions: the major, the minor or the patch
    number goes up by one and the numbers behind it are 0; or the numbers
    stay and a prerelease moves on, to its release or to a later prerelease
    of it. *)
Inductive increment (v v' : Semver.SemVer) : Prop :=
| increment_major :
    Semver.major v' = (Semver.major v + 1)%N ->
    Semver.minor v' = 0%N -> Semver.patch v' = 0%N ->
    increment v v'
| increment_minor :
    Semver.major v' = Semver.major v ->
    Semver.minor v' = (Semver.minor v + 1)%N -> Semver.patch v' = 0%N ->
    increment v v'
| increment_patch :
    Semver.major v' = Semver.major v -> Semver.minor v' = Semver.minor v ->
    Semver.patch v' = (Semver.patch v + 1)%N ->
    increment v v'
| increment_prerelease :
    Semver.major v' = Semver.major v -> Semver.minor v' = Semver.minor v ->
    Semver.patch v' = Semver.patch v ->
    Semver.prerelease v <> [] ->
    Semver.prerelease v' = []
    \/ Semver.pre_lt (Semver.prerelease v) (Semver.prerelease v') ->
    increment v v'.

(** [next] is a valid increment of [current]: [current] is a semantic
    version, [next] is the text of a version that is an increment of it, and
    that version comes after [current] in precedence. *)
Definition valid_increment (current next : string) : Prop :=
  exists v v', Semver.parse current = Some v
               /\ next = Semver.format v'
               /\ increment v v'
               /\ Semver.precedes v v'.

(** The claim that a call of [getNextVersion] which returns, returns a next
    version that is a valid increment of some current version. *)
Definition returns_valid_increment
    (env : Env) (tags : list string) (w : IWorkspace) (l : log) : Prop :=
  forall o l',
    getNextVersion env tags w l = (Ok o, l') ->
    exists current next,
      o = {[ getName w := Some next ]} /\ valid_increment current next.

(** The tags handed to [getNextVersion] for [w]: those that start with its
    name. *)
Definition candidates (tags : list string) (w : IWorkspace) : list string :=
  List.filter (fun tag => Js.startsWith tag (getName w)) tags.

(** [t] is the first element of [tags] that git reports as an ancestor of
    HEAD, every element before it being reported as not an ancestor (exit
    code 1). *)
Definition first_ancestor (env : Env) (tags : list string) (t : string) : Prop :=
  exists before after,
    tags = before ++ t :: after
    /\ Forall (fun t' => exists out, run env (git_is_ancestor (JStr t')) = Exit 1 out) before
    /\ exists out, run env (git_is_ancestor (JStr t)) = Exit 0 out.

(** What [isRefInHistory] makes of the ancestry check of [ref]. *)
Definition ancestry (env : Env) (ref : jsstring) : outcome bool :=
  match run env (git_is_ancestor ref) with
  | Exit 0 _ => Ok true
  | Exit 1 _ => Ok false
  | r => Throw (ExecaError r)
  end.

(** The ancestry checks of [tags], one per tag and in their order. *)
Definition ancestry_commands (tags : list string) : list command :=
  map (fun t => git_is_ancestor (JStr t)) tags.

(** [workspace.dir.replace(process.cwd() + path.sep, '')] *)
Definition folder_of (env : Env) (w : IWorkspace) : string :=
  Js.remove_first (dir w) (cwd env +:+ path_sep env).

(** ** Repositories for the examples *)

Module Scenario.

(** A POSIX machine: git does and prints what [git] says, the packages are
    [packages], no filter is applied and the commit analyser answers
    [label].  Git ends every line it prints with a line feed, the last one
    too; the hashes of [git log --pretty=format:%H] are the exception, they
    are separated by line feeds. *)
Definition posix (wd : string) (git : list jsstring -> child_result)
    (packages : list IWorkspace) (label : jsstring -> string -> jsstring) : Env :=
  {| child := fun file args =>
                if bool_decide (file = "git") then git args else SpawnError "ENOENT";
     cwd := wd;
     isWin := false;
     path_resolve := Path.posix_resolve wd;
     project_packages := Ok packages;
     filterPackages := fun ps _ => ps;
     analyzeCommitsSinceRef := fun ref folder => ret (label ref folder) |}.

Definition no_filter : IFilterOpts :=
  {| only := None; ignore := None; onlyFs := None; ignoreFs := None |}.

Definition a : IWorkspace :=
  {| oid := 1; dir := "/repo/pkg-a"; getName := "a"; getVersion := "1.2.0" |}.
Definition b : IWorkspace :=
  {| oid := 2; dir := "/repo/pkg-b"; getName := "b"; getVersion := "2.0.0" |}.

Definition LF : string := String Js.LF EmptyString.

(** Branch [master] is at [4f2a9c1]; [v1] is a tag; three files changed
    since. *)
Definition git1 (args : list jsstring) : child_result :=
  if bool_decide (args = [JStr "rev-parse"; JStr "master"]) then Exit 0 ("4f2a9c1" +:+ LF)
  else if bool_decide (args = [JStr "merge-base"; JStr "v1"; JStr "HEAD"])
  then Exit 0 ("4f2a9c1" +:+ LF)
  else if bool_decide (args = [JStr "diff"; JStr "--name-only"; JStr "4f2a9c1"])
  then Exit 0 ("pkg-a/x.ts" +:+ LF +:+ "pkg-b/y.ts" +:+ LF +:+ "deleted.ts" +:+ LF)
  else if bool_decide (args = [JStr "merge-base"; JStr "--is-ancestor"; JStr "v1"; JStr "HEAD"])
  then Exit 0 ""
  else if bool_decide (args = [JStr "merge-base"; JStr "--is-ancestor"; JStr "v0"; JStr "HEAD"])
  then Exit 1 ""
  else if bool_decide (args = [JStr "tag"; JStr "--sort=-refname"])
  then Exit 0 ("v1" +:+ LF +:+ "v0" +:+ LF)
  else Exit 128 "".

Definition repo1 : Env := posix "/repo" git1 [a; b] (fun _ _ => JStr "minor").

(** Nothing changed since [v1]: the diff prints nothing. *)
Definition git_clean (args : list jsstring) : child_result :=
  if bool_decide (args = [JStr "merge-base"; JStr "v1"; JStr "HEAD"])
  then Exit 0 ("4f2a9c1" +:+ LF)
  else if bool_decide (args = [JStr "diff"; JStr "--name-only"; JStr "4f2a9c1"])
  then Exit 0 ""
  else Exit 128 "".

Definition repo_clean : Env := posix "/repo" git_clean [a; b] (fun _ _ => JStr "patch").

(** Releases are tagged: [b-2.0.0], [a-1.5.0] and [a-1.4.0].  HEAD is on a
    branch cut before [a-1.5.0]: of [a]'s tags only [a-1.4.0] is an
    ancestor.  Workspace [b] has no tag that is one. *)
Definition git_tagged (args : list jsstring) : child_result :=
  if bool_decide (args = [JStr "tag"; JStr "--sort=-refname"])
  then Exit 0 ("b-2.0.0" +:+ LF +:+ "a-1.5.0" +:+ LF +:+ "a-1.4.0" +:+ LF)
  else if bool_decide (args = [JStr "merge-base"; JStr "--is-ancestor"; JStr "a-1.4.0"; JStr "HEAD"])
  then Exit 0 ""
  else if bool_decide (args = [JStr "merge-base"; JStr "--is-ancestor"; JStr "a-1.5.0"; JStr "HEAD"])
  then Exit 1 ""
  else if bool_decide (args = [JStr "merge-base"; JStr "--is-ancestor"; JStr "b-2.0.0"; JStr "HEAD"])
  then Exit 1 ""
  else if bool_decide (args = [JStr "log"; JStr "--reverse"; JStr "--pretty=format:%H"; JStr "--"; JStr "pkg-a"])
  then Exit 0 ("0c1d2e3" +:+ LF +:+ "4f2a9c1")
  else if bool_decide (args = [JStr "log"; JStr "--reverse"; JStr "--pretty=format:%H"; JStr "--"; JStr "pkg-c"])
  then Exit 0 "9e8d7c6"
  else Exit 128 "".

Definition repo_tagged : Env :=
  posix "/repo" git_tagged [a; b] (fun _ _ => JStr "minor").

(** A workspace whose package.json carries a version that is not a
    semantic version. *)
Definition c : IWorkspace :=
  {| oid := 3; dir := "/repo/pkg-c"; getName := "c"; getVersion := "1.2" |}.

(** Two workspaces, the name of one beginning with the name of the other;
    both were released and both tags are ancestors of HEAD. *)
Definition ui : IWorkspace :=
  {| oid := 4; dir := "/repo/ui"; getName := "ui"; getVersion := "1.0.0" |}.
Definition ui_kit : IWorkspace :=
  {| oid := 5; dir := "/repo/ui-kit"; getName := "ui-kit"; getVersion := "2.0.0" |}.

Definition git_ui (args : list jsstring) : child_result :=
  if bool_decide (args = [JStr "tag"; JStr "--sort=-refname"])
  then Exit 0 ("ui-kit-2.0.0" +:+ LF +:+ "ui-1.0.0" +:+ LF)
  else if bool_decide (args = [JStr "merge-base"; JStr "--is-ancestor"; JStr "ui-kit-2.0.0"; JStr "HEAD"])
  then Exit 0 ""
  else if bool_decide (args = [JStr "merge-base"; JStr "--is-ancestor"; JStr "ui-1.0.0"; JStr "HEAD"])
  then Exit 0 ""
  else Exit 128 "".

Definition repo_ui : Env := posix "/repo" git_ui [ui; ui_kit] (fun _ _ => JStr "minor").

End Scenario.

(** ** The rest of git.ts *)

(** What a template literal makes of a value. *)
Definition template (v : jsstring) : string :=
  match v with
  | JNull => "null"
  | JUndefined => "undefined"
  | JStr s => s
  end.

(** [a || b] on strings: [b] when [a] is [null], [undefined] or empty. *)
Definition or_else (a : jsstring) (b : string) : jsstring :=
  match a with
  | JNull | JUndefined | JStr EmptyString => JStr b
  | _ => a
  end.

Section GitRest.
Context (env : Env).

Definition getCommitsSinceRef (ref : jsstring) (workspace : string) : M string :=
  let* stdout := execa env "git"
    [JStr "log";
     JStr (template ref +:+ "..HEAD");
     JStr "--format=%B%n------------------------ >8 ------------------------";
     JStr "--";
     JStr workspace] in
  ret stdout.

(** [addTag(tag, message, ref)]: an argument left out is [undefined], and
    the default ['HEAD'] of [ref] stands in for [undefined] only. *)
Definition addTag (tag : string) (message : jsstring) (ref : jsstring) : M unit :=
  let ref := match ref with JUndefined => JStr "HEAD" | _ => ref end in
  let* _ := execa env "git"
    [JStr "tag"; JStr "-a"; JStr tag; JStr "-m"; or_else message tag; ref] in
  ret tt.

Definition pushTag : M unit :=
  let* _ := execa env "git" [JStr "push"; JStr "origin"; JStr "--tags"] in
  ret tt.

End GitRest.

(** ** More notions for the statements *)

(** [arr.join(sep)] *)
Fixpoint join (sep : string) (arr : list string) : string :=
  match arr with
  | [] => EmptyString
  | [x] => x
  | x :: rest => x +:+ sep +:+ join sep rest
  end.

(** How often [c] occurs in [s]. *)
Fixpoint count_char (c : ascii) (s : string) : nat :=
  match s with
  | EmptyString => O
  | String x s' => (if Ascii.eqb x c then 1 else 0) + count_char c s'
  end.

(** [s] has no line feed. *)
Definition one_line (s : string) : bool :=
  Js.all_chars (fun c => negb (Ascii.eqb c Js.LF)) s.

(** [s] does not begin with white space. *)
Definition no_leading_space (s : string) : bool :=
  match s with
  | EmptyString => true
  | String c _ => negb (Js.is_whitespace c)
  end.

Definition git_commits_since (ref : jsstring) (workspace : string) : command :=
  ("git",
   [JStr "log";
    JStr (template ref +:+ "..HEAD");
    JStr "--format=%B%n------------------------ >8 ------------------------";
    JStr "--";
    JStr workspace]).

Definition git_describe : command :=
  ("git", [JStr "describe"; JStr "--tags"; JStr "--abbrev=0"]).

Definition git_tags (isRevert : bool) : command :=
  ("git", if isRevert then [JStr "tag"; JStr "--sort=-refname"] else [JStr "tag"]).

Definition git_tag_annotated (tag : string) (message ref : jsstring) : command :=
  ("git", [JStr "tag"; JStr "-a"; JStr tag; JStr "-m"; message; ref]).

(** What [execa] makes of the end of a child. *)
Definition settled (r : child_result) : outcome string :=
  match r with
  | Exit 0 out => Ok out
  | _ => Throw (ExecaError r)
  end.

(** The object the [forEach] of [getChangesFromLastTagByWorkspaces] fills. *)
Definition bucket_changes (env : Env) (changedFiles : list string)
    (allPackages : list IWorkspace) : gmap string (list jsstring) :=
  foldl
    (fun result workspace =>
       let changes :=
         List.filter (fun changeFilePath => Js.includes changeFilePath (dir workspace))
                     changedFiles in
       <[dir workspace :=
           map (fun change =>
                  let parts := Js.split (split_sep env) change in
                  Js.at_last parts) changes]> result)
    ∅ allPackages.

(** [ref] is reported as no ancestor of HEAD. *)
Definition not_ancestor (env : Env) (t : string) : Prop :=
  exists out, run env (git_is_ancestor (JStr t)) = Exit 1 out.

(** The first line of [s]: what stands before its first line feed. *)
Fixpoint first_line (s : string) : string :=
  match s with
  | EmptyString => EmptyString
  | String c s' => if Ascii.eqb c Js.LF then EmptyString else String c (first_line s')
  end.

(** [commit] is the first commit of [folder]: the first of the hashes that
    [git log --reverse --pretty=format:%H -- folder] lists, one per line,
    for the commits that touched the folder, the oldest first. *)
Definition first_commit (env : Env) (folder commit : string) : Prop :=
  is_commit_hash commit = true
  /\ exists out,
       run env (git_first_commit folder) = Exit 0 out
       /\ (out = commit \/ exists later, out = commit +:+ String Js.LF later).

(** No white space in [s]. *)
Definition no_space (s : string) : bool :=
  Js.all_chars (fun c => negb (Js.is_whitespace c)) s.

(** What git prints for a list of names, such as its tags: every name on a
    line of its own, each line ended by a line feed. *)
Fixpoint print_lines (names : list string) : string :=
  match names with
  | [] => EmptyString
  | x :: rest => x +:+ String Js.LF (print_lines rest)
  end.

(** ** What [git rev-parse] does with a name

    git is not part of the sources.  To say which names are refs, its
    [rev-parse] is written out here for a name that is no option, as the
    source calls it: without [--verify]. *)

Record Repo := {
  (** the refs (branches and tags), each with the commit it points to *)
  refs : list (string * string);
  (** the paths that exist in the work tree *)
  work_tree : list string;
}.

(** The commit of the ref [name], when there is such a ref. *)
Definition commit_of (repo : Repo) (name : string) : option string :=
  snd <$> List.find (fun r => bool_decide (r.1 = name)) (refs repo).

(** [git rev-parse <name>]: for a ref, its commit; for a name that is no ref
    but a path that exists, the name as it is; for any other name the name
    as well, but followed by an error (exit code 128). *)
Definition rev_parse (repo : Repo) (name : string) : child_result :=
  match commit_of repo name with
  | Some hash => Exit 0 (hash +:+ String Js.LF EmptyString)
  | None =>
      if bool_decide (name ∈ work_tree repo)
      then Exit 0 (name +:+ String Js.LF EmptyString)
      else Exit 128 (name +:+ String Js.LF EmptyString)
  end.

(** The claim that [getRef] answers [null] for every name that is no ref of
    the repository [repo], which is the one git looks at. *)
Definition null_for_missing_refs (env : Env) (repo : Repo) : Prop :=
  forall name l,
    printed env (git_rev_parse name) = rev_parse repo name ->
    commit_of repo name = None ->
    exists l', getRef env name l = (Ok JNull, l').

(** ** More repositories for the examples *)

Module Cases.

(** A repository without tags. *)
Definition git_untagged (args : list jsstring) : child_result :=
  if bool_decide (args = [JStr "tag"; JStr "--sort=-refname"]) then Exit 0 ""
  else if bool_decide (args = [JStr "tag"]) then Exit 0 ""
  else if bool_decide (args = [JStr "log"; JStr "--reverse"; JStr "--pretty=format:%H"; JStr "--"; JStr "pkg-a"])
  then Exit 0 ("0c1d2e3" +:+ Scenario.LF +:+ "4f2a9c1")
  else if bool_decide (args = [JStr "log"; JStr "--reverse"; JStr "--pretty=format:%H"; JStr "--"; JStr "pkg-b"])
  then Exit 0 "7a7a7a7"
  else if bool_decide (args = [JStr "log"; JStr "--reverse"; JStr "--pretty=format:%H"; JStr "--"; JStr "pkg-new"])
  then Exit 0 ""
  else Exit 128 "".

Definition repo_untagged : Env :=
  Scenario.posix "/repo" git_untagged [Scenario.a; Scenario.b] (fun _ _ => JStr "patch").

(** Two workspaces whose directories begin alike. *)
Definition pkg_ab : IWorkspace :=
  {| oid := 6; dir := "/repo/pkg-ab"; getName := "ab"; getVersion := "0.1.0" |}.

Definition git_overlap (args : list jsstring) : child_result :=
  if bool_decide (args = [JStr "tag"; JStr "--sort=-refname"])
  then Exit 0 ("v1" +:+ Scenario.LF)
  else if bool_decide (args = [JStr "merge-base"; JStr "--is-ancestor"; JStr "v1"; JStr "HEAD"])
  then Exit 0 ""
  else if bool_decide (args = [JStr "merge-base"; JStr "v1"; JStr "HEAD"])
  then Exit 0 ("4f2a9c1" +:+ Scenario.LF)
  else if bool_decide (args = [JStr "diff"; JStr "--name-only"; JStr "4f2a9c1"])
  then Exit 0 ("pkg-ab/z.ts" +:+ Scenario.LF +:+ "pkg-a/x.ts" +:+ Scenario.LF)
  else Exit 128 "".

Definition repo_overlap : Env :=
  Scenario.posix "/repo" git_overlap [Scenario.a; pkg_ab] (fun _ _ => JStr "patch").

(** A workspace inside another one. *)
Definition outer : IWorkspace :=
  {| oid := 7; dir := "/repo/packages"; getName := "all"; getVersion := "1.0.0" |}.
Definition inner : IWorkspace :=
  {| oid := 8; dir := "/repo/packages/core"; getName := "core"; getVersion := "1.0.0" |}.

(** Tags exist, but HEAD descends from none of them, and git knows no ref
    called undefined. *)
Definition git_detached (args : list jsstring) : child_result :=
  if bool_decide (args = [JStr "tag"; JStr "--sort=-refname"])
  then Exit 0 ("v2" +:+ Scenario.LF +:+ "v1" +:+ Scenario.LF)
  else if bool_decide (args = [JStr "merge-base"; JStr "--is-ancestor"; JStr "v2"; JStr "HEAD"])
  then Exit 1 ""
  else if bool_decide (args = [JStr "merge-base"; JStr "--is-ancestor"; JStr "v1"; JStr "HEAD"])
  then Exit 1 ""
  else Exit 128 "".

Definition repo_detached : Env :=
  Scenario.posix "/repo" git_detached [Scenario.a; Scenario.b] (fun _ _ => JStr "patch").

(** The clean repository, the tool being run from inside [a]. *)
Definition repo_inside : Env :=
  Scenario.posix "/repo/pkg-a/src" Scenario.git_clean [Scenario.a; Scenario.b]
                 (fun _ _ => JStr "patch").

(** Only files outside the workspaces changed since [v1]. *)
Definition git_docs (args : list jsstring) : child_result :=
  if bool_decide (args = [JStr "merge-base"; JStr "v1"; JStr "HEAD"])
  then Exit 0 ("4f2a9c1" +:+ Scenario.LF)
  else if bool_decide (args = [JStr "diff"; JStr "--name-only"; JStr "4f2a9c1"])
  then Exit 0 ("README.md" +:+ Scenario.LF +:+ "docs/api.md" +:+ Scenario.LF)
  else Exit 128 "".

Definition repo_docs : Env :=
  Scenario.posix "/repo" git_docs [Scenario.a; Scenario.b] (fun _ _ => JStr "patch").

(** The tags [v1] and [v0], as [git tag] prints them. *)
Definition git_two_tags (args : list jsstring) : child_result :=
  if bool_decide (args = [JStr "tag"; JStr "--sort=-refname"])
  then Exit 0 (print_lines ["v1"; "v0"])
  else if bool_decide (args = [JStr "tag"]) then Exit 0 (print_lines ["v0"; "v1"])
  else Exit 128 "".

Definition repo_two_tags : Env :=
  Scenario.posix "/repo" git_two_tags [Scenario.a; Scenario.b] (fun _ _ => JStr "patch").

(** [env] with the commit analyser [analyser], which may ask [env]'s git. *)
Definition with_analyser (env : Env)
    (analyser : Env -> jsstring -> string -> M jsstring) : Env :=
  {| child := child env;
     cwd := cwd env;
     isWin := isWin env;
     path_resolve := path_resolve env;
     project_packages := project_packages env;
     filterPackages := filterPackages env;
     analyzeCommitsSinceRef := analyser env |}.

(** A commit analyser for the examples: it reads the messages of the commits
    since [ref] under [folder] with [getCommitsSinceRef] and answers minor
    when one of them announces a feature, and patch otherwise. *)
Definition analyse_messages (env : Env) (ref : jsstring) (folder : string)
  : M jsstring :=
  let* messages := getCommitsSinceRef env ref folder in
  ret (JStr (if Js.includes messages "feat" then "minor" else "patch")).

Definition scissors : string := "------------------------ >8 ------------------------".

(** The history of [pkg-a]: first touched by 0c1d2e3, then given a feature
    and released as a-1.4.0, then fixed in 4f2a9c1, which is HEAD.  a-1.5.0
    was tagged on another branch.  [git log] lists the newest commit
    first. *)
Definition git_history (args : list jsstring) : child_result :=
  if bool_decide (args = [JStr "log"; JStr "--reverse"; JStr "--pretty=format:%H"; JStr "--"; JStr "pkg-a"])
  then Exit 0 ("0c1d2e3" +:+ Scenario.LF +:+ "4f2a9c1")
  else if bool_decide (args = [JStr "merge-base"; JStr "--is-ancestor"; JStr "a-1.4.0"; JStr "HEAD"])
  then Exit 0 ""
  else if bool_decide (args = [JStr "merge-base"; JStr "--is-ancestor"; JStr "a-1.5.0"; JStr "HEAD"])
  then Exit 1 ""
  else if bool_decide (args = (git_commits_since (JStr "0c1d2e3") "pkg-a").2)
  then Exit 0 ("fix: handle empty input" +:+ Scenario.LF +:+ Scenario.LF
               +:+ scissors +:+ Scenario.LF
               +:+ "feat: add the x command" +:+ Scenario.LF +:+ Scenario.LF
               +:+ scissors +:+ Scenario.LF)
  else if bool_decide (args = (git_commits_since (JStr "a-1.4.0") "pkg-a").2)
  then Exit 0 ("fix: handle empty input" +:+ Scenario.LF +:+ Scenario.LF
               +:+ scissors +:+ Scenario.LF)
  else if bool_decide (args = (git_commits_since (JStr "") "pkg-a").2)
  then Exit 0 ""
  else Exit 128 "".

Definition repo_history : Env :=
  with_analyser
    (Scenario.posix "/repo" git_history [Scenario.a; Scenario.b] (fun _ _ => JNull))
    analyse_messages.

(** A repository with the branch [master] and the tag [v1], and with the
    directories of the two workspaces in its work tree. *)
Definition two_refs : Repo :=
  {| refs := [("master", "4f2a9c1"); ("v1", "0c1d2e3")];
     work_tree := ["pkg-a"; "pkg-b"; "README.md"] |}.

Definition git_refs (args : list jsstring) : child_result :=
  match args with
  | [JStr sub; JStr name] =>
      if bool_decide (sub = "rev-parse") then rev_parse two_refs name else Exit 128 ""
  | _ => Exit 128 ""
  end.

Definition repo_refs : Env :=
  Scenario.posix "/repo" git_refs [Scenario.a; Scenario.b] (fun _ _ => JStr "patch").

End Cases.

(** ** Facts about the string operations *)

Module JsFacts.
Import Js.

Lemma split_not_nil sep s : split sep s <> [].
Proof.
  destruct s as [|c s]; simpl; [discriminate|].
  destruct (Ascii.eqb c sep); [discriminate|].
  destruct (split sep s); discriminate.
Qed.

Lemma startsWith_app p r : startsWith (p +:+ r) p = true.
Proof.
  induction p as [|a p IH]; simpl; [reflexivity|].
  rewrite Ascii.eqb_refl. exact IH.
Qed.

Lemma startsWith_inv s p : startsWith s p = true -> exists r, s = p +:+ r.
Proof.
  revert s. induction p as [|a p IH]; intros s H; simpl in *.
  - exists s. reflexivity.
  - destruct s as [|b s]; [discriminate|].
    apply andb_true_iff in H as [Hab Hs].
    apply Ascii.eqb_eq in Hab. subst b.
    destruct (IH _ Hs) as [r ->]. exists r. reflexivity.
Qed.

Lemma startsWith_iff s p : startsWith s p = true <-> exists r, s = p +:+ r.
Proof.
  split; [apply startsWith_inv|]. intros [r ->]. apply startsWith_app.
Qed.

Lemma drop_app p r : drop (String.length p) (p +:+ r) = r.
Proof.
  induction p as [|a p IH]; simpl; [destruct r; reflexivity|]. exact IH.
Qed.

(** Removing the first occurrence of a prefix strips the prefix. *)
Lemma remove_first_prefix p r : remove_first (p +:+ r) p = r.
Proof.
  destruct (p +:+ r) as [|c s] eqn:E; simpl.
  - destruct p; [|discriminate]. simpl in E. subst r. reflexivity.
  - rewrite <- E at 1. rewrite startsWith_app.
    rewrite <- E. apply drop_app.
Qed.

Lemma includes_iff s p :
  includes s p = true <-> exists a b, s = a +:+ p +:+ b.
Proof.
  split.
  - induction s as [|c s IH]; simpl; intros H.
    + rewrite orb_false_r in H. apply startsWith_inv in H as [r Hr].
      exists EmptyString, r. exact Hr.
    + apply orb_true_iff in H as [H|H].
      * apply startsWith_inv in H as [r Hr]. exists EmptyString, r. exact Hr.
      * destruct (IH H) as (a & b & ->). exists (String c a), b. reflexivity.
  - intros (a & b & ->). induction a as [|c a IH]; simpl.
    + destruct (p +:+ b) as [|c s] eqn:E; simpl.
      * destruct p; [reflexivity|discriminate].
      * rewrite <- E. now rewrite startsWith_app.
    + rewrite IH. apply orb_true_r.
Qed.

(** A string with no white space at all is its own trim. *)
Lemma trimEnd_id s : all_chars (fun c => negb (is_whitespace c)) s = true -> trimEnd s = s.
Proof.
  induction s as [|c s IH]; simpl; [reflexivity|].
  intros H. apply andb_true_iff in H as [Hc Hs].
  rewrite (IH Hs). destruct s; [|reflexivity].
  apply negb_true_iff in Hc. now rewrite Hc.
Qed.

Lemma trim_id s : all_chars (fun c => negb (is_whitespace c)) s = true -> trim s = s.
Proof.
  intros H. unfold trim.
  assert (trimStart s = s) as ->.
  { destruct s as [|c s]; simpl in *; [reflexivity|].
    apply andb_true_iff in H as [Hc _]. apply negb_true_iff in Hc.
    now rewrite Hc. }
  now apply trimEnd_id.
Qed.

Lemma split_no_sep sep s :
  all_chars (fun c => negb (Ascii.eqb c sep)) s = true -> split sep s = [s].
Proof.
  induction s as [|c s IH]; simpl; [reflexivity|].
  intros H. apply andb_true_iff in H as [Hc Hs].
  apply negb_true_iff in Hc. rewrite Hc, (IH Hs). reflexivity.
Qed.

End JsFacts.

(** ** The monad *)

Lemma bind_ok {A B} (m : M A) (k : A -> M B) l a l' :
  m l = (Ok a, l') -> bind m k l = k a l'.
Proof. unfold bind. now intros ->. Qed.

Lemma bind_throw {A B} (m : M A) (k : A -> M B) l e l' :
  m l = (Throw e, l') -> bind m k l = (Throw e, l').
Proof. unfold bind. now intros ->. Qed.

Lemma bind_inv_ok {A B} (m : M A) (k : A -> M B) l b l2 :
  bind m k l = (Ok b, l2) -> exists a l1, m l = (Ok a, l1) /\ k a l1 = (Ok b, l2).
Proof.
  unfold bind. destruct (m l) as [[a|e] l1]; intros H; [eauto|discriminate].
Qed.

Lemma execa_ok env file args l out :
  spawn env file args = Exit 0 out ->
  execa env file args l = (Ok out, l ++ [(file, args)]).
Proof. unfold execa. now intros ->. Qed.

Lemma execa_fail env file args l :
  (forall out, spawn env file args <> Exit 0 out) ->
  execa env file args l = (Throw (ExecaError (spawn env file args)), l ++ [(file, args)]).
Proof.
  unfold execa. intros H.
  destruct (spawn env file args) as [code out| |] eqn:E; try reflexivity.
  destruct code as [|p|p]; try reflexivity. now destruct (H out).
Qed.

(** One step of a computation whose first part is known to return: [H]
    says what it returns ([run_ok]), or what the child it spawns prints
    ([run_execa]). *)
Ltac run_ok H := erewrite bind_ok by exact H.
Ltac run_execa H := erewrite bind_ok by (apply execa_ok; exact H).

(** ** git.ts *)

Module GitFacts.
Import Js JsFacts.

Lemma all_chars_impl (p q : ascii -> bool) s :
  (forall c, p c = true -> q c = true) ->
  all_chars p s = true -> all_chars q s = true.
Proof.
  intros Hpq. induction s as [|c s IH]; simpl; [reflexivity|].
  intros H. apply andb_true_iff in H as [Hc Hs].
  now rewrite (Hpq _ Hc), (IH Hs).
Qed.

Lemma hex_not_whitespace c : is_hex_digit c = true -> negb (is_whitespace c) = true.
Proof. destruct c as [[] [] [] [] [] [] [] []]; vm_compute; congruence. Qed.

Lemma hex_not_LF c : is_hex_digit c = true -> negb (Ascii.eqb c LF) = true.
Proof. destruct c as [[] [] [] [] [] [] [] []]; vm_compute; congruence. Qed.

(** A commit hash is the first line of its own trim. *)
Lemma first_line_of_hash hash :
  is_commit_hash hash = true -> first (split LF (trim hash)) = JStr hash.
Proof.
  unfold is_commit_hash. intros H. apply andb_true_iff in H as [_ H].
  rewrite trim_id by (eapply all_chars_impl; [apply hex_not_whitespace|exact H]).
  rewrite split_no_sep by (eapply all_chars_impl; [apply hex_not_LF|exact H]).
  reflexivity.
Qed.

End GitFacts.

Lemma getRef_missing env name l :
  (forall out, run env (git_rev_parse name) <> Exit 0 out) ->
  getRef env name l = (Ok JNull, l ++ [git_rev_parse name]).
Proof.
  intros H. unfold getRef, try_catch.
  erewrite bind_throw by (apply execa_fail; exact H). reflexivity.
Qed.

Lemma getRef_hash env name l hash :
  is_commit_hash hash = true ->
  run env (git_rev_parse name) = Exit 0 hash ->
  getRef env name l = (Ok (JStr hash), l ++ [git_rev_parse name]).
Proof.
  intros Hh Hr. unfold getRef, try_catch.
  run_execa Hr.
  unfold ret. now rewrite GitFacts.first_line_of_hash.
Qed.

(** *** What execa takes off the output *)

Module ExecaFacts.
Import Js.

Lemma chop_cons c x s : s <> EmptyString -> chop c (String x s) = String x (chop c s).
Proof. destruct s; [congruence|reflexivity]. Qed.

Lemma chop_snoc c s : chop c (s +:+ String c EmptyString) = s.
Proof.
  induction s as [|x s IH]; simpl.
  - now rewrite Ascii.eqb_refl.
  - change (chop c (String x (s +:+ String c EmptyString)) = String x s).
    rewrite chop_cons by (destruct s; discriminate). now rewrite IH.
Qed.

Lemma chop_id c s : all_chars (fun x => negb (Ascii.eqb x c)) s = true -> chop c s = s.
Proof.
  induction s as [|x s IH]; [reflexivity|]. simpl all_chars. intros H.
  apply andb_true_iff in H as [Hx Hs]. apply negb_true_iff in Hx.
  destruct s as [|y s]; [simpl; now rewrite Hx|].
  rewrite chop_cons by discriminate. now rewrite IH.
Qed.

Lemma trimEnd_chop c s : is_whitespace c = true -> trimEnd (chop c s) = trimEnd s.
Proof.
  intros Hc. induction s as [|x s IH]; [reflexivity|].
  destruct s as [|y s].
  - simpl. destruct (Ascii.eqb x c) eqn:Hx; [|reflexivity].
    apply Ascii.eqb_eq in Hx. subst x. now rewrite Hc.
  - rewrite chop_cons by discriminate.
    change (trimEnd (String x (chop c (String y s))))
      with (match trimEnd (chop c (String y s)) with
            | EmptyString => if is_whitespace x then EmptyString else String x EmptyString
            | t => String x t
            end).
    now rewrite IH.
Qed.

Lemma trimStart_chop c s :
  is_whitespace c = true -> trimStart (chop c s) = chop c (trimStart s).
Proof.
  intros Hc. induction s as [|x s IH]; [reflexivity|].
  destruct s as [|y s].
  - simpl. destruct (Ascii.eqb x c) eqn:Hx.
    + apply Ascii.eqb_eq in Hx. subst x. now rewrite Hc.
    + simpl. destruct (is_whitespace x); [reflexivity|]. simpl. now rewrite Hx.
  - rewrite chop_cons by discriminate.
    change (trimStart (String x (chop c (String y s))))
      with (if is_whitespace x then trimStart (chop c (String y s))
            else String x (chop c (String y s))).
    change (trimStart (String x (String y s)))
      with (if is_whitespace x then trimStart (String y s) else String x (String y s)).
    destruct (is_whitespace x); [exact IH|].
    now rewrite (chop_cons c x (String y s)) by discriminate.
Qed.

Lemma trim_chop c s : is_whitespace c = true -> trim (chop c s) = trim s.
Proof.
  intros Hc. unfold trim. now rewrite trimStart_chop, trimEnd_chop.
Qed.

(** Trimming makes up for the final newline that execa took off. *)
Lemma trim_strip s : trim (strip_final_newline s) = trim s.
Proof. unfold strip_final_newline. now rewrite !trim_chop. Qed.

(** The line feed that ends a line is trimmed away. *)
Lemma trim_line s : trim (s +:+ String LF EmptyString) = trim s.
Proof.
  rewrite <- (trim_chop LF (s +:+ String LF EmptyString)) by reflexivity.
  now rewrite chop_snoc.
Qed.

Lemma trim_strip_line s : trim (strip_final_newline (s +:+ String LF EmptyString)) = trim s.
Proof. now rewrite trim_strip, trim_line. Qed.

(** A line that git ends with a line feed comes back without it. *)
Lemma strip_line s :
  all_chars (fun x => negb (Ascii.eqb x CR)) s = true ->
  strip_final_newline (s +:+ String LF EmptyString) = s.
Proof. intros H. unfold strip_final_newline. now rewrite chop_snoc, chop_id. Qed.

Lemma first_split_first_line s : first (split LF s) = JStr (first_line s).
Proof.
  induction s as [|c s IH]; [reflexivity|]. simpl.
  destruct (Ascii.eqb c LF); [reflexivity|].
  pose proof (JsFacts.split_not_nil LF s) as Hne.
  destruct (split LF s) as [|h t]; [congruence|].
  simpl in *. now injection IH as ->.
Qed.

Lemma first_line_id s :
  all_chars (fun c => negb (Ascii.eqb c LF)) s = true -> first_line s = s.
Proof.
  induction s as [|c s IH]; [reflexivity|]. simpl. intros H.
  apply andb_true_iff in H as [Hc Hs]. apply negb_true_iff in Hc.
  now rewrite Hc, IH.
Qed.

Lemma first_line_app s later :
  all_chars (fun c => negb (Ascii.eqb c LF)) s = true ->
  first_line (s +:+ String LF later) = s.
Proof.
  induction s as [|c s IH]; simpl; [reflexivity|]. intros H.
  apply andb_true_iff in H as [Hc Hs]. apply negb_true_iff in Hc.
  now rewrite Hc, IH.
Qed.

Lemma hash_not_CR hash :
  is_commit_hash hash = true -> all_chars (fun x => negb (Ascii.eqb x CR)) hash = true.
Proof.
  unfold is_commit_hash. intros H. apply andb_true_iff in H as [_ H].
  eapply GitFacts.all_chars_impl; [|exact H].
  intros c. destruct c as [[] [] [] [] [] [] [] []]; vm_compute; congruence.
Qed.

Lemma hash_one_line hash :
  is_commit_hash hash = true -> all_chars (fun c => negb (Ascii.eqb c LF)) hash = true.
Proof.
  unfold is_commit_hash. intros H. apply andb_true_iff in H as [_ H].
  eapply GitFacts.all_chars_impl; [apply GitFacts.hex_not_LF|exact H].
Qed.

Lemma hash_trimmed hash : is_commit_hash hash = true -> trim hash = hash.
Proof.
  unfold is_commit_hash. intros H. apply andb_true_iff in H as [_ H].
  apply JsFacts.trim_id. eapply GitFacts.all_chars_impl; [apply GitFacts.hex_not_whitespace|exact H].
Qed.

End ExecaFacts.

(** What execa reports of a command, from what its child printed. *)
Lemma run_printed env c code out :
  printed env c = Exit code out -> run env c = Exit code (strip_final_newline out).
Proof. unfold printed, run, spawn. now intros ->. Qed.

(** [getRef] in one step: [null] unless git exits with 0, and then the first
    line of the trimmed output. *)
Lemma getRef_run env name l :
  getRef env name l
  = (match run env (git_rev_parse name) with
     | Exit 0 out => Ok (JStr (first_line (Js.trim out)))
     | _ => Ok JNull
     end, l ++ [git_rev_parse name]).
Proof.
  unfold getRef, try_catch, bind, execa, ret, run, git_rev_parse. simpl.
  destruct (spawn env "git" [JStr "rev-parse"; JStr name]) as [[|p|p] out| |];
    try reflexivity.
  now rewrite ExecaFacts.first_split_first_line.
Qed.

(** What git printed on one line, [getRef] returns trimmed and cut at the
    first line feed. *)
Lemma getRef_printed_line env name l line :
  printed env (git_rev_parse name) = Exit 0 (line +:+ String Js.LF EmptyString) ->
  getRef env name l
  = (Ok (JStr (first_line (Js.trim line))), l ++ [git_rev_parse name]).
Proof.
  intros H. rewrite getRef_run, (run_printed _ _ _ _ H).
  now rewrite ExecaFacts.trim_strip_line.
Qed.

(** C9, as the code has it.  [getRef] (the spec's resolveRef) never throws.
    It returns [null] exactly when [git rev-parse] does not exit with 0;
    otherwise it returns the first line of the trimmed output, which is the
    commit hash when git printed one.  Whether git fails is not whether the
    name is a ref: [rev-parse] is called without [--verify], and with the
    repository [repo] behind it a ref gives its commit, a name that is
    neither a ref nor a path gives [null], and a name that is no ref but a
    path of the work tree comes back as it is. *)
Theorem getRef_null_iff_git_fails (env : Env) (name : string) (l : log) :
  let r := run env (git_rev_parse name) in
  let l' := l ++ [git_rev_parse name] in
  (exists v, getRef env name l = (Ok v, l'))
  /\ (getRef env name l = (Ok JNull, l') <-> forall out, r <> Exit 0 out)
  /\ (forall out, r = Exit 0 out ->
        getRef env name l = (Ok (JStr (first_line (Js.trim out))), l'))
  /\ (forall hash, is_commit_hash hash = true -> r = Exit 0 hash ->
        getRef env name l = (Ok (JStr hash), l'))
  /\ (forall repo,
        printed env (git_rev_parse name) = rev_parse repo name ->
        match commit_of repo name with
        | Some hash =>
            is_commit_hash hash = true -> getRef env name l = (Ok (JStr hash), l')
        | None =>
            if bool_decide (name ∈ work_tree repo)
            then getRef env name l = (Ok (JStr (first_line (Js.trim name))), l')
                 /\ (one_line name = true -> Js.trim name = name ->
                     getRef env name l = (Ok (JStr name), l'))
            else getRef env name l = (Ok JNull, l')
        end).
Proof.
  cbv zeta. split; [|split; [|split; [|split]]].
  - rewrite getRef_run.
    destruct (run env (git_rev_parse name)) as [[|p|p] out| |]; eauto.
  - rewrite getRef_run.
    destruct (run env (git_rev_parse name)) as [[|p|p] out| |]; split;
      try discriminate; try (intros _; reflexivity);
      try (intros _ out'; discriminate).
    intros H. now destruct (H out).
  - intros out Hr. now rewrite getRef_run, Hr.
  - intros hash. apply getRef_hash.
  - intros repo Hgit. unfold rev_parse in Hgit.
    destruct (commit_of repo name) as [hash|].
    + intros Hh. rewrite (getRef_printed_line _ _ _ _ Hgit).
      now rewrite (ExecaFacts.hash_trimmed _ Hh),
        (ExecaFacts.first_line_id _ (ExecaFacts.hash_one_line _ Hh)).
    + destruct (bool_decide (name ∈ work_tree repo)).
      * rewrite (getRef_printed_line _ _ _ _ Hgit). split; [reflexivity|].
        intros Hline Htrim. now rewrite Htrim, (ExecaFacts.first_line_id _ Hline).
      * rewrite getRef_run, (run_printed _ _ _ _ Hgit). reflexivity.
Qed.

(** In the repository with the refs [master] and [v1]: [master] resolves to
    its commit, [nope] to [null], and [pkg-a], which is no ref but a
    directory, to itself. *)
Lemma getRef_null_iff_git_fails_witness :
  getRef Cases.repo_refs "master" [] = (Ok (JStr "4f2a9c1"), [git_rev_parse "master"])
  /\ getRef Cases.repo_refs "nope" [] = (Ok JNull, [git_rev_parse "nope"])
  /\ getRef Cases.repo_refs "pkg-a" [] = (Ok (JStr "pkg-a"), [git_rev_parse "pkg-a"]).
Proof.
  pose proof (proj2 (proj2 (proj2 (proj2
    (getRef_null_iff_git_fails Cases.repo_refs "master" [])))) Cases.two_refs eq_refl) as Hm.
  pose proof (proj2 (proj2 (proj2 (proj2
    (getRef_null_iff_git_fails Cases.repo_refs "nope" [])))) Cases.two_refs eq_refl) as Hn.
  pose proof (proj2 (proj2 (proj2 (proj2
    (getRef_null_iff_git_fails Cases.repo_refs "pkg-a" [])))) Cases.two_refs eq_refl) as Hp.
  split; [|split].
  - apply Hm. reflexivity.
  - exact Hn.
  - apply (proj2 Hp); reflexivity.
Defined.

(** C9 as stated fails: [pkg-a] is no ref of the repository, git prints the
    name back because it is a path of the work tree, and [getRef] returns
    the name, not [null]. *)
Lemma getRef_returns_path_name :
  commit_of Cases.two_refs "pkg-a" = None
  /\ getRef Cases.repo_refs "pkg-a" [] = (Ok (JStr "pkg-a"), [git_rev_parse "pkg-a"])
  /\ ~ null_for_missing_refs Cases.repo_refs Cases.two_refs.
Proof.
  split; [reflexivity|]. split; [reflexivity|].
  intros H. destruct (H "pkg-a" [] eq_refl eq_refl) as [l' Hl']. discriminate.
Qed.

(** C7. [getChangedFilesSinceRef] (the spec's changedFilesSinceRef) with a
    [null] ref throws [Error('Current ref is undefined')], the spec's
    MissingRefError, whatever [fullPath] is, and spawns nothing: the log is
    the one it started from.  The throw ends the caller too:
    [getWorkspacesChangedSinceRef] with a [null] ref fails the same way
    before it looks at the packages, and [getChangedFilesSinceMaster] fails
    so when [master] does not resolve, after its one [git rev-parse]. *)
Theorem getChangedFilesSinceRef_null_throws (env : Env) (fullPath : bool) (l : log) :
  getChangedFilesSinceRef env JNull fullPath l
  = (Throw (Error "Current ref is undefined"), l)
  /\ (forall opts,
        getWorkspacesChangedSinceRef env JNull opts l
        = (Throw (Error "Current ref is undefined"), l))
  /\ ((forall out, run env (git_rev_parse "master") <> Exit 0 out) ->
      getChangedFilesSinceMaster env fullPath l
      = (Throw (Error "Current ref is undefined"), l ++ [git_rev_parse "master"])).
Proof.
  split; [reflexivity|]. split; [reflexivity|].
  intros Hmissing. unfold getChangedFilesSinceMaster, getMasterRef.
  erewrite bind_ok by (apply getRef_missing; exact Hmissing). reflexivity.
Qed.

(** C8. [isRefInHistory] (the spec's isAncestor) returns [false] exactly
    when the ancestry check exits with 1 and [true] exactly when it exits
    with 0; any other end of the child is thrown on as the error it is. *)
Theorem isRefInHistory_exit_codes (env : Env) (ref : jsstring) (l : log) :
  let r := run env (git_is_ancestor ref) in
  let l' := l ++ [git_is_ancestor ref] in
  (isRefInHistory env ref l = (Ok false, l') <-> exists out, r = Exit 1 out)
  /\ (isRefInHistory env ref l = (Ok true, l') <-> exists out, r = Exit 0 out)
  /\ (forall code out, r = Exit code out -> code <> 0 -> code <> 1 ->
        isRefInHistory env ref l = (Throw (ExecaError r), l'))
  /\ ((forall code out, r <> Exit code out) ->
        isRefInHistory env ref l = (Throw (ExecaError r), l')).
Proof.
  cbv zeta. unfold run, git_is_ancestor, isRefInHistory, try_catch, bind, execa, ret, throw.
  simpl.
  destruct (spawn env "git" [JStr "merge-base"; JStr "--is-ancestor"; ref; JStr "HEAD"])
    as [[|p|p] out| |] eqn:E; simpl; try destruct p; simpl;
    repeat split;
    try (intros [o [=]]; fail);
    try (intros [=]; fail);
    try (intros _; eexists; reflexivity);
    try (intros code o [= <- <-] H0 H1; congruence);
    try (intros code o [=]; fail);
    try (intros H; exfalso; eapply H; reflexivity);
    try reflexivity.
Qed.

(** In the example repository [v1] is an ancestor of HEAD, [v0] is not, and
    for a name git does not know the check exits with 128, which is thrown. *)
Example isRefInHistory_examples :
  isRefInHistory Scenario.repo1 (JStr "v1") [] = (Ok true, [git_is_ancestor (JStr "v1")])
  /\ isRefInHistory Scenario.repo1 (JStr "v0") []
     = (Ok false, [git_is_ancestor (JStr "v0")])
  /\ isRefInHistory Scenario.repo1 (JStr "nope") []
     = (Throw (ExecaError (Exit 128 "")), [git_is_ancestor (JStr "nope")]).
Proof. repeat split; reflexivity. Qed.

Lemma getChangedFilesSinceRef_not_nil env ref fullPath l files l' :
  getChangedFilesSinceRef env ref fullPath l = (Ok files, l') -> files <> [].
Proof.
  unfold getChangedFilesSinceRef. destruct (decide (ref = JNull)); [discriminate|].
  intros H. apply bind_inv_ok in H as (base & l1 & _ & H).
  apply bind_inv_ok in H as (out & l2 & _ & H).
  pose proof (JsFacts.split_not_nil Js.LF (Js.trim out)) as Hne.
  destruct fullPath; simpl in H; injection H as <- _; [|exact Hne].
  destruct (Js.split Js.LF (Js.trim out)); [congruence|discriminate].
Qed.

(** C10. A successful [getChangedFilesSinceRef] never returns the empty
    list; when the diff prints nothing, it returns the list whose one element
    is the empty string, or what [path.resolve] makes of the empty string
    when [fullPath] is set. *)
Theorem getChangedFilesSinceRef_empty_diff
    (env : Env) (ref : jsstring) (fullPath : bool) (l : log) :
  (forall files l', getChangedFilesSinceRef env ref fullPath l = (Ok files, l') ->
     files <> [])
  /\ (forall base out,
        ref <> JNull ->
        run env (git_merge_base ref) = Exit 0 base ->
        run env (git_diff (Js.trim base)) = Exit 0 out ->
        Js.trim out = "" ->
        getChangedFilesSinceRef env ref fullPath l
        = (Ok [if fullPath then path_resolve env "" else ""],
           l ++ [git_merge_base ref; git_diff (Js.trim base)])).
Proof.
  split.
  - intros files l'. apply getChangedFilesSinceRef_not_nil.
  - intros base out Hnull Hbase Hdiff Hout.
    unfold getChangedFilesSinceRef. destruct (decide (ref = JNull)); [contradiction|].
    run_execa Hbase.
    run_execa Hdiff.
    rewrite Hout, <- app_assoc. destruct fullPath; reflexivity.
Qed.

(** In a repository where nothing changed since [v1], the relative list is
    [['']] and the absolute one is the working directory alone. *)
Lemma getChangedFilesSinceRef_empty_diff_witness :
  getChangedFilesSinceRef Scenario.repo_clean (JStr "v1") false []
  = (Ok [""], [git_merge_base (JStr "v1"); git_diff "4f2a9c1"])
  /\ getChangedFilesSinceRef Scenario.repo_clean (JStr "v1") true []
     = (Ok ["/repo"], [git_merge_base (JStr "v1"); git_diff "4f2a9c1"]).
Proof.
  split.
  - apply (proj2 (getChangedFilesSinceRef_empty_diff Scenario.repo_clean (JStr "v1") false [])
             "4f2a9c1" ""); [discriminate|reflexivity..].
  - apply (proj2 (getChangedFilesSinceRef_empty_diff Scenario.repo_clean (JStr "v1") true [])
             "4f2a9c1" ""); [discriminate|reflexivity..].
Defined.

(** ** workspaces.ts *)

Module ListFacts.

Lemma find_Some_first {A} (p : A -> bool) (l : list A) (x : A) :
  List.find p l = Some x <->
  exists before after,
    l = before ++ x :: after /\ p x = true /\ Forall (fun y => p y = false) before.
Proof.
  split.
  - induction l as [|y l IH]; simpl; [discriminate|].
    destruct (p y) eqn:Hy.
    + intros [= ->]. exists [], l. auto.
    + intros H. destruct (IH H) as (before & after & -> & Hx & Hb).
      exists (y :: before), after. auto.
  - intros (before & after & -> & Hx & Hb).
    induction Hb as [|y before Hy _ IH]; simpl.
    + now rewrite Hx.
    + now rewrite Hy.
Qed.

Lemma find_None_all {A} (p : A -> bool) (l : list A) :
  List.find p l = None <-> Forall (fun y => p y = false) l.
Proof.
  induction l as [|y l IH]; simpl.
  - split; auto.
  - destruct (p y) eqn:Hy.
    + split; [discriminate|]. intros H. inversion H; congruence.
    + rewrite IH. split; [auto|]. intros H. now inversion H.
Qed.

End ListFacts.

Lemma startsWith_path_prefix env d file :
  Js.startsWith file (d +:+ path_sep env) = true <-> path_prefix_of env d file.
Proof. apply JsFacts.startsWith_iff. Qed.

Lemma not_startsWith_path_prefix env d file :
  Js.startsWith file (d +:+ path_sep env) = false <-> ~ path_prefix_of env d file.
Proof.
  rewrite <- startsWith_path_prefix.
  destruct (Js.startsWith file (d +:+ path_sep env)); split; congruence.
Qed.

(** C6. [fileNameToPackage] (the spec's mapFileToWorkspace) returns the first
    workspace of the list whose directory is a path-prefix of the file, and
    [undefined] exactly when no workspace of the list is one. *)
Theorem fileNameToPackage_first_match
    (env : Env) (fileName : string) (allPackages : list IWorkspace) :
  (forall w,
     fileNameToPackage env fileName allPackages = Some w <->
     exists before after,
       allPackages = before ++ w :: after
       /\ path_prefix_of env (dir w) fileName
       /\ Forall (fun w' => ~ path_prefix_of env (dir w') fileName) before)
  /\ (fileNameToPackage env fileName allPackages = None <->
      Forall (fun w => ~ path_prefix_of env (dir w) fileName) allPackages).
Proof.
  unfold fileNameToPackage. split.
  - intros w. rewrite ListFacts.find_Some_first.
    split; intros (before & after & Heq & Hw & Hb); exists before, after;
      (split; [exact Heq|]).
    + split; [now apply startsWith_path_prefix|].
      eapply Forall_impl; [exact Hb|]. intros w'. apply not_startsWith_path_prefix.
    + split; [now apply startsWith_path_prefix|].
      eapply Forall_impl; [exact Hb|]. intros w'. apply not_startsWith_path_prefix.
  - rewrite ListFacts.find_None_all.
    split; intros H; (eapply Forall_impl; [exact H|]); intros w';
      apply not_startsWith_path_prefix.
Qed.

(** The directory must be followed by the separator: /repo/pkg-ab is not
    under /repo/pkg-a. *)
Example fileNameToPackage_examples :
  fileNameToPackage Scenario.repo1 "/repo/pkg-b/y.ts" [Scenario.a; Scenario.b]
  = Some Scenario.b
  /\ fileNameToPackage Scenario.repo1 "/repo/pkg-ab/x.ts" [Scenario.a; Scenario.b]
     = None
  /\ fileNameToPackage Scenario.repo1 "/repo/deleted.ts" [Scenario.a; Scenario.b]
     = None.
Proof. repeat split; reflexivity. Qed.

(** *** The search for the first ancestor *)

Lemma ancestry_true env ref :
  ancestry env ref = Ok true <-> exists out, run env (git_is_ancestor ref) = Exit 0 out.
Proof.
  unfold ancestry.
  destruct (run env (git_is_ancestor ref)) as [[|p|p] out| |]; try destruct p;
    split; try discriminate; eauto; intros [o [=]].
Qed.

Lemma ancestry_false env ref :
  ancestry env ref = Ok false <-> exists out, run env (git_is_ancestor ref) = Exit 1 out.
Proof.
  unfold ancestry.
  destruct (run env (git_is_ancestor ref)) as [[|p|p] out| |]; try destruct p;
    split; try discriminate; eauto; intros [o [=]].
Qed.

Lemma isRefInHistory_run env ref l :
  isRefInHistory env ref l = (ancestry env ref, l ++ [git_is_ancestor ref]).
Proof.
  unfold isRefInHistory, ancestry, run, git_is_ancestor, try_catch, bind, execa, ret, throw.
  simpl.
  destruct (spawn env "git" [JStr "merge-base"; JStr "--is-ancestor"; ref; JStr "HEAD"])
    as [[|p|p] out| |]; try destruct p; reflexivity.
Qed.

Lemma all_settled_ancestry env tags l :
  all_settled (map (fun t => isRefInHistory env (JStr t)) tags) l
  = (map (fun t => ancestry env (JStr t)) tags, l ++ ancestry_commands tags).
Proof.
  revert l. induction tags as [|t tags IH]; intros l; simpl.
  - now rewrite app_nil_r.
  - rewrite isRefInHistory_run, IH. unfold ancestry_commands. simpl.
    now rewrite <- app_assoc.
Qed.

Lemma pLocate_run env tags l :
  pLocate tags (fun t => isRefInHistory env (JStr t)) l
  = (pLocate_check (zip tags (map (fun t => ancestry env (JStr t)) tags)),
     l ++ ancestry_commands tags).
Proof. unfold pLocate. now rewrite all_settled_ancestry. Qed.

Lemma pLocate_check_first_ancestor env tags t :
  pLocate_check (zip tags (map (fun t => ancestry env (JStr t)) tags)) = Ok (JStr t)
  <-> first_ancestor env tags t.
Proof.
  unfold first_ancestor. split.
  - induction tags as [|x tags IH]; simpl; [discriminate|].
    destruct (ancestry env (JStr x)) as [[|]|e] eqn:E; [| |discriminate].
    + intros [= ->]. exists [], tags. split; [reflexivity|]. split; [constructor|].
      now apply ancestry_true.
    + intros H. destruct (IH H) as (before & after & -> & Hb & Ht).
      exists (x :: before), after. split; [reflexivity|]. split; [|exact Ht].
      constructor; [now apply ancestry_false|exact Hb].
  - intros (before & after & -> & Hb & Ht).
    induction Hb as [|x before Hx _ IH]; simpl.
    + apply ancestry_true in Ht. now rewrite Ht.
    + apply ancestry_false in Hx. now rewrite Hx.
Qed.

Lemma pLocate_check_undefined env tags :
  pLocate_check (zip tags (map (fun t => ancestry env (JStr t)) tags)) = Ok JUndefined
  <-> Forall (fun t => exists out, run env (git_is_ancestor (JStr t)) = Exit 1 out) tags.
Proof.
  induction tags as [|x tags IH]; simpl.
  - split; auto.
  - destruct (ancestry env (JStr x)) as [[|]|e] eqn:E.
    + split; [discriminate|]. intros H. inversion H as [|? ? Hx _]; subst.
      apply ancestry_false in Hx. congruence.
    + rewrite IH. split.
      * intros H. constructor; [now apply ancestry_false|exact H].
      * intros H. now inversion H.
    + split; [discriminate|]. intros H. inversion H as [|? ? Hx _]; subst.
      apply ancestry_false in Hx. congruence.
Qed.

(** *** [getNextVersion] *)

Lemma getNextVersion_no_tags env w l :
  getNextVersion env [] w l
  = (let* ref := getFirstCommitByWorkspaceFolder env (folder_of env w) in
     let* releaseType := analyzeCommitsSinceRef env (JStr ref) (folder_of env w) in
     ret {[ getName w := Semver.inc (getVersion w) releaseType ]}) l.
Proof.
  unfold getNextVersion, folder_of, bind, ret. simpl.
  destruct (getFirstCommitByWorkspaceFolder env _ l) as [[ref|e] l1]; reflexivity.
Qed.

Lemma getNextVersion_tags env tags w l :
  tags <> [] ->
  getNextVersion env tags w l
  = match pLocate_check (zip tags (map (fun t => ancestry env (JStr t)) tags)) with
    | Ok (JStr t) =>
        (let* releaseType := analyzeCommitsSinceRef env (JStr t) (folder_of env w) in
         ret {[ getName w :=
                  Semver.inc (Js.remove_first t (getName w +:+ "-")) releaseType ]})
          (l ++ ancestry_commands tags)
    | Ok _ =>
        (Throw (TypeError "Cannot read property 'replace' of undefined"),
         l ++ ancestry_commands tags)
    | Throw e => (Throw e, l ++ ancestry_commands tags)
    end.
Proof.
  intros Hne. unfold getNextVersion, folder_of.
  destruct tags as [|x tags]; [congruence|].
  change (length (x :: tags) =? 0)%nat with false. cbv iota.
  unfold bind at 1. unfold bind at 1. rewrite pLocate_run.
  destruct (pLocate_check _) as [[| |t]|e]; reflexivity.
Qed.

(** With tags of which none is an ancestor of HEAD the search gives
    [undefined], and the call ends in the TypeError of reading [replace] on
    it. *)
Lemma getNextVersion_no_ancestor env tags w l :
  tags <> [] ->
  Forall (fun t => exists out, run env (git_is_ancestor (JStr t)) = Exit 1 out) tags ->
  getNextVersion env tags w l
  = (Throw (TypeError "Cannot read property 'replace' of undefined"),
     l ++ ancestry_commands tags).
Proof.
  intros Hne Hall. rewrite getNextVersion_tags by exact Hne.
  apply pLocate_check_undefined in Hall. now rewrite Hall.
Qed.

(** [getFirstCommitByWorkspaceFolder] in one step: execa's error when git
    fails, and else the trimmed first line of the output. *)
Lemma getFirstCommitByWorkspaceFolder_run env folder l :
  getFirstCommitByWorkspaceFolder env folder l
  = (match run env (git_first_commit folder) with
     | Exit 0 out => Ok (Js.trim (first_line out))
     | r => Throw (ExecaError r)
     end, l ++ [git_first_commit folder]).
Proof.
  unfold getFirstCommitByWorkspaceFolder, bind, execa, ret, throw, run, git_first_commit.
  simpl.
  destruct (spawn env "git" _) as [[|p|p] out| |]; try reflexivity.
  now rewrite ExecaFacts.first_split_first_line.
Qed.

(** The first commit of a folder is what [getFirstCommitByWorkspaceFolder]
    returns for it. *)
Lemma first_commit_found env folder commit l :
  first_commit env folder commit ->
  getFirstCommitByWorkspaceFolder env folder l
  = (Ok commit, l ++ [git_first_commit folder]).
Proof.
  intros (Hh & out & Hout & Hshape).
  rewrite getFirstCommitByWorkspaceFolder_run, Hout.
  pose proof (ExecaFacts.hash_one_line _ Hh) as Hline.
  assert (first_line out = commit) as ->.
  { destruct Hshape as [->|[later ->]].
    - now apply ExecaFacts.first_line_id.
    - now apply ExecaFacts.first_line_app. }
  now rewrite (ExecaFacts.hash_trimmed _ Hh).
Qed.

(** C2. [getNextVersion] (the spec's nextVersionForWorkspace) chooses its
    reference and its current version by cases.  With an empty tag list, git
    is asked for the commits of the workspace folder, oldest first; the
    reference handed to the commit analysis is the trimmed first line of the
    answer, that is the folder's first commit, and the current version is the
    workspace's own; when git fails, so does the call.  With a non-empty list
    whose first ancestor of HEAD is [t], the reference is [t] and the current
    version is [t] without [<name>-]: what follows that prefix when [t]
    begins with it.  A workspace at 1.2.0 without tags whose commits since
    its first commit are classified as minor gets 1.3.0, whatever the
    analysis spawned. *)
Theorem getNextVersion_reference_and_version
    (env : Env) (tags : list string) (w : IWorkspace) (l : log) :
  let folder := folder_of env w in
  let l1 := l ++ [git_first_commit folder] in
  (tags = [] ->
   (forall out,
      run env (git_first_commit folder) = Exit 0 out ->
      getNextVersion env tags w l
      = (let* releaseType :=
           analyzeCommitsSinceRef env (JStr (Js.trim (first_line out))) folder in
         ret {[ getName w := Semver.inc (getVersion w) releaseType ]}) l1)
   /\ (forall commit,
         first_commit env folder commit ->
         getNextVersion env tags w l
         = (let* releaseType := analyzeCommitsSinceRef env (JStr commit) folder in
            ret {[ getName w := Semver.inc (getVersion w) releaseType ]}) l1)
   /\ ((forall out, run env (git_first_commit folder) <> Exit 0 out) ->
       getNextVersion env tags w l
       = (Throw (ExecaError (run env (git_first_commit folder))), l1)))
  /\ (forall t,
        tags <> [] -> first_ancestor env tags t ->
        getNextVersion env tags w l
        = (let* releaseType := analyzeCommitsSinceRef env (JStr t) folder in
           ret {[ getName w :=
                    Semver.inc (Js.remove_first t (getName w +:+ "-")) releaseType ]})
            (l ++ ancestry_commands tags)
        /\ forall v, t = (getName w +:+ "-") +:+ v ->
                     Js.remove_first t (getName w +:+ "-") = v)
  /\ (forall commit l2,
        tags = [] -> getVersion w = "1.2.0" ->
        first_commit env folder commit ->
        analyzeCommitsSinceRef env (JStr commit) folder l1 = (Ok (JStr "minor"), l2) ->
        getNextVersion env tags w l = (Ok {[ getName w := Some "1.3.0" ]}, l2)).
Proof.
  cbv zeta. split; [|split].
  - intros ->. rewrite getNextVersion_no_tags. split; [|split].
    + intros out Hout. unfold bind at 1.
      now rewrite getFirstCommitByWorkspaceFolder_run, Hout.
    + intros commit Hc. unfold bind at 1.
      now rewrite (first_commit_found _ _ _ l Hc).
    + intros Hfail. unfold bind at 1.
      rewrite getFirstCommitByWorkspaceFolder_run.
      destruct (run env (git_first_commit (folder_of env w))) as [[|p|p] out| |];
        try reflexivity.
      now destruct (Hfail out).
  - intros t Hne Ht. split.
    + rewrite getNextVersion_tags by exact Hne.
      apply pLocate_check_first_ancestor in Ht. now rewrite Ht.
    + intros v ->. apply JsFacts.remove_first_prefix.
  - intros commit l2 -> Hv Hc Ha.
    rewrite getNextVersion_no_tags.
    run_ok (first_commit_found _ _ _ l Hc). run_ok Ha.
    rewrite Hv. reflexivity.
Qed.

(** Workspace [a] at 1.2.0 in the repository whose commit analysis reads the
    messages since the reference.  Without tags the reference is 0c1d2e3, the
    first commit of pkg-a: the messages since then hold a feature, and [a]
    gets 1.3.0.  With the tags [a-1.5.0] and [a-1.4.0], of which only the
    second is an ancestor, the reference is [a-1.4.0]: the messages since
    then hold a fix only, and [a] gets 1.4.1. *)
Lemma getNextVersion_reference_and_version_witness :
  first_commit Cases.repo_history "pkg-a" "0c1d2e3"
  /\ getNextVersion Cases.repo_history [] Scenario.a []
     = (Ok {[ "a" := Some "1.3.0" ]},
        [git_first_commit "pkg-a"; git_commits_since (JStr "0c1d2e3") "pkg-a"])
  /\ getNextVersion Cases.repo_history ["a-1.5.0"; "a-1.4.0"] Scenario.a []
     = (Ok {[ "a" := Some "1.4.1" ]},
        ancestry_commands ["a-1.5.0"; "a-1.4.0"]
        ++ [git_commits_since (JStr "a-1.4.0") "pkg-a"]).
Proof.
  assert (first_commit Cases.repo_history "pkg-a" "0c1d2e3") as Hfirst.
  { split; [reflexivity|]. eexists. split; [reflexivity|]. right. now exists "4f2a9c1". }
  split; [exact Hfirst|]. split.
  - apply (proj2 (proj2 (getNextVersion_reference_and_version
                           Cases.repo_history [] Scenario.a []))
             "0c1d2e3"); [reflexivity|reflexivity|exact Hfirst|reflexivity].
  - destruct (proj1 (proj2 (getNextVersion_reference_and_version
                       Cases.repo_history ["a-1.5.0"; "a-1.4.0"] Scenario.a []))
                "a-1.4.0") as [H _].
    + discriminate.
    + exists ["a-1.5.0"], []. split; [reflexivity|].
      split; [|exists ""; reflexivity].
      constructor; [exists ""; reflexivity|constructor].
    + rewrite H. reflexivity.
Defined.

(** *** Increments and precedence *)

Module SemverFacts.
Import Semver.

Lemma bump_last_number_shape l r :
  bump_last_number l = Some r ->
  exists a n b, l = a ++ INum n :: b /\ r = a ++ INum (n + 1) :: b.
Proof.
  revert r. induction l as [|[n|s] l IH]; intros r; simpl.
  - discriminate.
  - intros [= <-]. exists [], n, l. auto.
  - destruct (bump_last_number l) as [r'|]; [|discriminate].
    intros [= <-]. destruct (IH r' eq_refl) as (a & n & b & -> & ->).
    exists (IStr s :: a), n, b. auto.
Qed.

Lemma pre_lt_app_head (p r1 r2 : list identifier) :
  pre_lt r1 r2 -> pre_lt (p ++ r1) (p ++ r2).
Proof. intros H. induction p as [|x p IH]; [exact H|]. now apply pre_lt_next. Qed.

Lemma pre_lt_snoc (ids : list identifier) x : pre_lt ids (ids ++ [x]).
Proof.
  rewrite <- (app_nil_r ids) at 1. apply pre_lt_app_head. constructor.
Qed.

Lemma pre_lt_bumped ids r :
  bump_last_number (rev ids) = Some r -> pre_lt ids (rev r).
Proof.
  intros H. apply bump_last_number_shape in H as (a & n & b & Hrev & ->).
  apply (f_equal (@rev identifier)) in Hrev. rewrite rev_involutive in Hrev.
  subst ids. rewrite !rev_app_distr. simpl. rewrite <- !app_assoc. simpl.
  apply pre_lt_app_head. apply pre_lt_head.
  unfold identifier_ltb. simpl. apply N.ltb_lt. lia.
Qed.

Lemma bump_last_number_not_nil l r : bump_last_number l = Some r -> r <> [].
Proof.
  intros H. apply bump_last_number_shape in H as (a & n & b & _ & ->).
  now destruct a.
Qed.

(** The bump of the prerelease identifiers of a prerelease comes after it. *)
Lemma inc_pre_precedes v : prerelease v <> [] -> precedes v (inc_pre v).
Proof.
  intros Hne. right. unfold inc_pre.
  destruct (prerelease v) as [|x ids] eqn:E; [congruence|].
  destruct (bump_last_number (rev (x :: ids))) as [r|] eqn:Hb; simpl.
  - repeat (split; [reflexivity|]).
    pose proof (bump_last_number_not_nil _ _ Hb) as Hr.
    pose proof (pre_lt_bumped _ _ Hb) as Hlt.
    destruct (rev r) as [|y r'] eqn:Er; [|exact Hlt].
    apply (f_equal (@rev identifier)) in Er. rewrite rev_involutive in Er.
    now subst r.
  - repeat (split; [reflexivity|]). apply (pre_lt_snoc (x :: ids)).
Qed.

(** Every increment but ['pre'] comes after the version it starts from. *)
Lemma inc_version_precedes v r : r <> Pre -> precedes v (inc_version v r).
Proof.
  intros Hr. destruct v as [ma mi pa pre].
  destruct r; try congruence; unfold inc_version, inc_patch, inc_pre, precedes, core_lt;
    simpl.
  - (* major *)
    destruct (negb (mi =? 0)%N || negb (pa =? 0)%N || bool_decide (pre = [])) eqn:Hb.
    + left. left. lia.
    + apply orb_false_iff in Hb as [Hb Hpre]. apply orb_false_iff in Hb as [Hmi Hpa].
      apply negb_false_iff, N.eqb_eq in Hmi. apply negb_false_iff, N.eqb_eq in Hpa.
      apply bool_decide_eq_false in Hpre. subst.
      right. repeat (split; [reflexivity|]). now destruct pre.
  - (* premajor *) left. left. lia.
  - (* minor *)
    destruct (negb (pa =? 0)%N || bool_decide (pre = [])) eqn:Hb.
    + left. right. left. split; [reflexivity|lia].
    + apply orb_false_iff in Hb as [Hpa Hpre].
      apply negb_false_iff, N.eqb_eq in Hpa.
      apply bool_decide_eq_false in Hpre. subst.
      right. repeat (split; [reflexivity|]). now destruct pre.
  - (* preminor *) left. right. left. split; [reflexivity|lia].
  - (* patch *)
    destruct pre as [|x pre]; simpl.
    + left. right. right. repeat (split; [reflexivity|]). lia.
    + right. repeat (split; [reflexivity|]). exact I.
  - (* prepatch *) left. right. right. repeat (split; [reflexivity|]). lia.
  - (* prerelease *)
    destruct pre as [|x pre]; simpl.
    + left. right. right. repeat (split; [reflexivity|]). lia.
    + apply (inc_pre_precedes (Build_SemVer ma mi pa (x :: pre))). discriminate.
Qed.

Lemma inc_pre_increment v : prerelease v <> [] -> increment v (inc_pre v).
Proof.
  intros Hne. unfold inc_pre.
  destruct (prerelease v) as [|x ids] eqn:E; [congruence|].
  destruct (bump_last_number (rev (x :: ids))) as [r|] eqn:Hb;
    apply increment_prerelease; simpl; try reflexivity; try congruence;
    right; rewrite E.
  - apply (pre_lt_bumped _ _ Hb).
  - apply (pre_lt_snoc (x :: ids)).
Qed.

(** Every increment of the package but ['pre'] on a release is one of the
    increments of semantic versioning. *)
Lemma inc_version_increment v r :
  r <> Pre \/ prerelease v <> [] -> increment v (inc_version v r).
Proof.
  intros Hr. destruct r.
  - (* major *)
    unfold inc_version.
    destruct (negb (minor v =? 0)%N || negb (patch v =? 0)%N
              || bool_decide (prerelease v = [])) eqn:Hb.
    + now apply increment_major.
    + apply orb_false_iff in Hb as [Hb Hpre]. apply orb_false_iff in Hb as [Hmi Hpa].
      apply negb_false_iff, N.eqb_eq in Hmi. apply negb_false_iff, N.eqb_eq in Hpa.
      apply bool_decide_eq_false in Hpre.
      apply increment_prerelease; simpl; auto.
  - (* premajor *) now apply increment_major.
  - (* minor *)
    unfold inc_version.
    destruct (negb (patch v =? 0)%N || bool_decide (prerelease v = [])) eqn:Hb.
    + now apply increment_minor.
    + apply orb_false_iff in Hb as [Hpa Hpre].
      apply negb_false_iff, N.eqb_eq in Hpa.
      apply bool_decide_eq_false in Hpre.
      apply increment_prerelease; simpl; auto.
  - (* preminor *) now apply increment_minor.
  - (* patch *)
    unfold inc_version, inc_patch.
    destruct (prerelease v) as [|x pre] eqn:E.
    + now apply increment_patch.
    + apply increment_prerelease; simpl; auto. congruence.
  - (* prepatch *) now apply increment_patch.
  - (* prerelease *)
    unfold inc_version.
    destruct (prerelease v) as [|x pre] eqn:E.
    + unfold inc_patch. rewrite E. now apply increment_patch.
    + apply inc_pre_increment. congruence.
  - (* pre *)
    destruct Hr as [Hr|Hr]; [congruence|]. now apply inc_pre_increment.
Qed.

Lemma release_of_label_pre release :
  release_of_label release = Some Pre -> release = JStr "pre".
Proof.
  destruct release as [| |s]; simpl; try discriminate.
  repeat (case_bool_decide; [discriminate || (intros _; congruence)|]).
  discriminate.
Qed.

End SemverFacts.

Example inc_examples :
  Semver.inc "1.2.0" (JStr "minor") = Some "1.3.0"
  /\ Semver.inc "1.2.3" (JStr "major") = Some "2.0.0"
  /\ Semver.inc "v1.2.3" (JStr "patch") = Some "1.2.4"
  /\ Semver.inc "1.2.3-rc.1" (JStr "patch") = Some "1.2.3"
  /\ Semver.inc "1.2.3-rc.1" (JStr "prerelease") = Some "1.2.3-rc.2"
  /\ Semver.inc "1.2.3" (JStr "prerelease") = Some "1.2.4-0"
  /\ Semver.inc "1.2.3" (JStr "pre") = Some "1.2.3-0"
  /\ Semver.inc "1.2" (JStr "minor") = None
  /\ Semver.inc "kit-2.0.0" (JStr "minor") = None
  /\ Semver.inc "1.2.0" (JStr "none") = None
  /\ Semver.inc "1.2.0" JNull = None.
Proof. repeat split; reflexivity. Qed.

(** What [semver.inc] answers: [null] exactly for a string that is no
    semantic version or a label that names no increment; else a valid
    increment, or, for the label ['pre'] on a release, that release with the
    prerelease identifier 0, which comes before it. *)
Lemma inc_null current releaseType :
  Semver.inc current releaseType = None
  <-> Semver.parse current = None \/ Semver.release_of_label releaseType = None.
Proof.
  unfold Semver.inc.
  destruct (Semver.parse current) as [v|]; simpl; [|tauto].
  destruct (Semver.release_of_label releaseType) as [r|]; simpl; [|tauto].
  split; [discriminate|]. now intros [|].
Qed.

Lemma inc_cases current releaseType next :
  Semver.inc current releaseType = Some next ->
  valid_increment current next
  \/ (releaseType = JStr "pre"
      /\ exists v, Semver.parse current = Some v
                   /\ Semver.prerelease v = []
                   /\ next = Semver.format (Semver.inc_pre v)).
Proof.
  unfold Semver.inc, valid_increment.
  destruct (Semver.parse current) as [v|]; simpl; [|discriminate].
  destruct (Semver.release_of_label releaseType) as [r|] eqn:Hr; simpl; [|discriminate].
  intros [= <-].
  assert (r = Semver.Pre \/ r <> Semver.Pre) as [->|Hne]
    by (destruct r; (now left) || (right; discriminate)).
  - destruct (Semver.prerelease v) as [|x ids] eqn:Hpre.
    + right. split; [now apply SemverFacts.release_of_label_pre|eauto].
    + left. exists v, (Semver.inc_version v Semver.Pre).
      split; [reflexivity|]. split; [reflexivity|]. split.
      * apply SemverFacts.inc_version_increment. right. congruence.
      * apply SemverFacts.inc_pre_precedes. congruence.
  - left. exists v, (Semver.inc_version v r).
    split; [reflexivity|]. split; [reflexivity|]. split.
    + apply SemverFacts.inc_version_increment. now left.
    + now apply SemverFacts.inc_version_precedes.
Qed.

(** The three plain labels on a release: the number they name goes up by
    one, the numbers behind it go to 0. *)
Lemma inc_release current v :
  Semver.parse current = Some v -> Semver.prerelease v = [] ->
  Semver.inc current (JStr "major")
  = Some (Semver.format (Semver.Build_SemVer (Semver.major v + 1) 0 0 []))
  /\ Semver.inc current (JStr "minor")
     = Some (Semver.format
               (Semver.Build_SemVer (Semver.major v) (Semver.minor v + 1) 0 []))
  /\ Semver.inc current (JStr "patch")
     = Some (Semver.format
               (Semver.Build_SemVer (Semver.major v) (Semver.minor v) (Semver.patch v + 1) [])).
Proof.
  intros Hv Hpre. unfold Semver.inc. rewrite Hv.
  destruct v as [ma mi pa pre]. simpl in Hpre. subst pre.
  repeat split; simpl; unfold Semver.inc_version, Semver.inc_patch; simpl;
    rewrite ?orb_true_r; reflexivity.
Qed.

(** The basis of a call of [getNextVersion] that got as far as the commit
    analysis: the reference (the trimmed first line of git's list of the
    folder's commits, or the first ancestor among the tags), the current
    version, and the log at that point. *)
Lemma getNextVersion_basis env tags w l o l' :
  getNextVersion env tags w l = (Ok o, l') ->
  exists ref current releaseType l1,
    ((tags = []
      /\ (exists out,
            run env (git_first_commit (folder_of env w)) = Exit 0 out
            /\ ref = JStr (Js.trim (first_line out)))
      /\ l1 = l ++ [git_first_commit (folder_of env w)]
      /\ current = getVersion w)
     \/ (exists t, first_ancestor env tags t
                   /\ ref = JStr t
                   /\ l1 = l ++ ancestry_commands tags
                   /\ current = Js.remove_first t (getName w +:+ "-")))
    /\ analyzeCommitsSinceRef env ref (folder_of env w) l1 = (Ok releaseType, l')
    /\ o = {[ getName w := Semver.inc current releaseType ]}.
Proof.
  intros H. destruct tags as [|x tags].
  - rewrite getNextVersion_no_tags in H.
    apply bind_inv_ok in H as (commit & l1 & Hc & H).
    apply bind_inv_ok in H as (rt & l2 & Ha & H).
    injection H as <- <-.
    rewrite getFirstCommitByWorkspaceFolder_run in Hc.
    destruct (run env (git_first_commit (folder_of env w))) as [[|p|p] out| |] eqn:Hout;
      try discriminate.
    injection Hc as <- <-.
    exists (JStr (Js.trim (first_line out))), (getVersion w), rt,
      (l ++ [git_first_commit (folder_of env w)]).
    split; [|split; [exact Ha|reflexivity]].
    left. split; [reflexivity|]. split; [|split; reflexivity].
    exists out. split; reflexivity.
  - rewrite getNextVersion_tags in H by discriminate.
    destruct (pLocate_check _) as [[| |t]|e] eqn:E; try discriminate.
    apply pLocate_check_first_ancestor in E.
    apply bind_inv_ok in H as (rt & l2 & Ha & H). injection H as <- <-.
    exists (JStr t), (Js.remove_first t (getName w +:+ "-")), rt,
      (l ++ ancestry_commands (x :: tags)).
    split; [right; exists t; auto|]. split; [exact Ha|reflexivity].
Qed.

(** C1, as the code has it.  When [getNextVersion] returns, the commit
    analysis was asked about the reference (the first commit of the folder as
    git lists it, or the first ancestor among the tags) and the folder of the
    workspace and answered with a label, and the one entry of the result maps
    the workspace's name to [semver.inc] of the current version and that
    label.
    The current version is the workspace's own when the tag list is empty,
    and else the first ancestor among the tags without [<name>-].  The entry
    is [null] exactly when the current version is no semantic version or the
    label names no increment.  Otherwise it is a valid increment of the
    current version, one that comes after it in precedence; but for the label
    ['pre'] on a release, where it is that release with the prerelease
    identifier 0.  On a release the labels major, minor and patch raise the
    number they name by one and set the numbers behind it to 0. *)
Theorem getNextVersion_increment_or_null
    (env : Env) (tags : list string) (w : IWorkspace) (l : log)
    (o : gmap string (option string)) (l' : log) :
  getNextVersion env tags w l = (Ok o, l') ->
  exists ref current releaseType l1,
    ((tags = []
      /\ (exists out,
            run env (git_first_commit (folder_of env w)) = Exit 0 out
            /\ ref = JStr (Js.trim (first_line out)))
      /\ l1 = l ++ [git_first_commit (folder_of env w)]
      /\ current = getVersion w)
     \/ (exists t, first_ancestor env tags t
                   /\ ref = JStr t
                   /\ l1 = l ++ ancestry_commands tags
                   /\ current = Js.remove_first t (getName w +:+ "-")
                   /\ forall v, t = (getName w +:+ "-") +:+ v -> current = v))
    /\ analyzeCommitsSinceRef env ref (folder_of env w) l1 = (Ok releaseType, l')
    /\ o = {[ getName w := Semver.inc current releaseType ]}
    /\ (Semver.inc current releaseType = None
        <-> Semver.parse current = None
            \/ Semver.release_of_label releaseType = None)
    /\ (forall next,
          Semver.inc current releaseType = Some next ->
          valid_increment current next
          \/ (releaseType = JStr "pre"
              /\ exists v, Semver.parse current = Some v
                           /\ Semver.prerelease v = []
                           /\ next = Semver.format (Semver.inc_pre v)))
    /\ (forall v,
          Semver.parse current = Some v -> Semver.prerelease v = [] ->
          (releaseType = JStr "major" ->
           o = {[ getName w :=
                    Some (Semver.format (Semver.Build_SemVer (Semver.major v + 1) 0 0 [])) ]})
          /\ (releaseType = JStr "minor" ->
              o = {[ getName w :=
                       Some (Semver.format
                               (Semver.Build_SemVer (Semver.major v) (Semver.minor v + 1)
                                                    0 [])) ]})
          /\ (releaseType = JStr "patch" ->
              o = {[ getName w :=
                       Some (Semver.format
                               (Semver.Build_SemVer (Semver.major v) (Semver.minor v)
                                                    (Semver.patch v + 1) [])) ]})).
Proof.
  intros H.
  destruct (getNextVersion_basis _ _ _ _ _ _ H)
    as (ref & current & rt & l1 & Hbasis & Ha & Ho).
  exists ref, current, rt, l1. split; [|split; [exact Ha|split; [exact Ho|]]].
  - destruct Hbasis as [Hb|(t & Ht & Hr & Hl & Hc)]; [now left|].
    right. exists t. repeat (split; [assumption|]).
    intros v ->. rewrite Hc. apply JsFacts.remove_first_prefix.
  - split; [apply inc_null|]. split; [intros next; apply inc_cases|].
    intros v Hv Hpre. destruct (inc_release _ _ Hv Hpre) as (Hmaj & Hmin & Hpat).
    rewrite Ho. repeat split; intros ->; congruence.
Qed.

(** Workspace [a] at 1.2.0 without tags, in the repository whose commit
    analysis reads the messages since the reference: asked about 0c1d2e3 and
    pkg-a it answers minor, and the entry is 1.3.0, the minor increment. *)
Lemma getNextVersion_increment_or_null_witness :
  getNextVersion Cases.repo_history [] Scenario.a []
  = (Ok {[ "a" := Some "1.3.0" ]},
     [git_first_commit "pkg-a"; git_commits_since (JStr "0c1d2e3") "pkg-a"])
  /\ exists ref releaseType l1,
       analyzeCommitsSinceRef Cases.repo_history ref "pkg-a" l1
       = (Ok releaseType,
          [git_first_commit "pkg-a"; git_commits_since (JStr "0c1d2e3") "pkg-a"])
       /\ ({[ "a" := Some "1.3.0" ]} : gmap string (option string))
          = {[ "a" := Semver.inc "1.2.0" releaseType ]}
       /\ valid_increment "1.2.0" "1.3.0".
Proof.
  split; [reflexivity|].
  destruct (getNextVersion_increment_or_null Cases.repo_history [] Scenario.a []
              {[ "a" := Some "1.3.0" ]}
              [git_first_commit "pkg-a"; git_commits_since (JStr "0c1d2e3") "pkg-a"]
              eq_refl)
    as (ref & current & rt & l1 & Hbasis & Ha & Ho & _ & Hinc & _).
  assert (current = "1.2.0") as ->.
  { destruct Hbasis as [(_ & _ & _ & ->)|(t & (before & after & Ht & _) & _)];
      [reflexivity|now destruct before]. }
  exists ref, rt, l1. split; [exact Ha|]. split; [exact Ho|].
  assert (Semver.inc "1.2.0" rt = Some "1.3.0") as Hnext.
  { apply (f_equal (fun m : gmap string (option string) => m !! "a")) in Ho.
    rewrite !lookup_singleton_eq in Ho. now injection Ho as <-. }
  destruct (Hinc "1.3.0" Hnext) as [Hvalid|(_ & v & Hv & _ & Hfmt)]; [exact Hvalid|].
  exfalso. vm_compute in Hv. injection Hv as <-. vm_compute in Hfmt. discriminate.
Defined.

(** C1 as stated fails: workspace [c] records the version [1.2], which is
    not a semantic version; its commits are classified as minor and the
    value returned for it is [null], which is no next version at all. *)
Lemma getNextVersion_null_for_malformed_version :
  getNextVersion Scenario.repo_tagged [] Scenario.c []
  = (Ok {[ "c" := None ]}, [git_first_commit "pkg-c"])
  /\ ~ returns_valid_increment Scenario.repo_tagged [] Scenario.c [].
Proof.
  split; [reflexivity|].
  intros H. destruct (H {[ "c" := None ]} [git_first_commit "pkg-c"] eq_refl)
    as (current & next & Heq & _).
  apply (f_equal (fun m : gmap string (option string) => m !! "c")) in Heq.
  simpl in Heq. rewrite !lookup_singleton_eq in Heq. discriminate.
Qed.

(** *** [Promise.all] *)

Lemma all_settled_each {A} (ms : list (M A)) l os l' :
  all_settled ms l = (os, l') ->
  Forall2 (fun m o => exists l1 l2, m l1 = (o, l2)) ms os.
Proof.
  revert l os l'. induction ms as [|m ms IH]; intros l os l'; simpl.
  - intros [= <- _]. constructor.
  - destruct (m l) as [o l1] eqn:Hm.
    destruct (all_settled ms l1) as [os' l2] eqn:Hms.
    intros [= <- _]. constructor; [eauto|]. eapply IH, Hms.
Qed.

Lemma collect_ok {A} (os : list (outcome A)) vs :
  collect os = Ok vs -> os = map Ok vs.
Proof.
  revert vs. induction os as [|[a|e] os IH]; intros vs; simpl.
  - now intros [= <-].
  - destruct (collect os) as [vs'|e]; [|discriminate].
    intros [= <-]. simpl. now rewrite (IH vs').
  - discriminate.
Qed.

Lemma collect_throw {A} (os : list (outcome A)) e :
  collect os = Throw e -> Throw e ∈ os.
Proof.
  induction os as [|[a|e'] os IH]; simpl; [discriminate| |].
  - destruct (collect os) as [vs'|e'']; [discriminate|].
    intros [= ->]. right. now apply IH.
  - intros [= ->]. left.
Qed.

(** Fulfilled: every promise was fulfilled, with the value at its place. *)
Lemma Promise_all_ok {A} (ms : list (M A)) l vs l' :
  Promise_all ms l = (Ok vs, l') ->
  Forall2 (fun m v => exists l1 l2, m l1 = (Ok v, l2)) ms vs.
Proof.
  unfold Promise_all. destruct (all_settled ms l) as [os l1] eqn:E.
  intros [= Hc <-]. apply collect_ok in Hc. subst os.
  apply all_settled_each in E. now apply Forall2_fmap_r in E.
Qed.

(** Rejected: with the rejection of one of the promises. *)
Lemma Promise_all_throw {A} (ms : list (M A)) l e l' :
  Promise_all ms l = (Throw e, l') ->
  Exists (fun m => exists l1 l2, m l1 = (Throw e, l2)) ms.
Proof.
  unfold Promise_all. destruct (all_settled ms l) as [os l1] eqn:E.
  intros [= Hc <-]. apply collect_throw in Hc.
  apply all_settled_each in E.
  induction E as [|m o ms os Hm _ IH]; [now apply elem_of_nil in Hc|].
  apply elem_of_cons in Hc as [<-|Hc]; [now left|right; auto].
Qed.

(** *** [getNextVersionsByWorkspaces] *)

Lemma candidates_spec tags w :
  sublist (candidates tags w) tags
  /\ forall t, t ∈ candidates tags w <-> t ∈ tags /\ exists r, t = getName w +:+ r.
Proof.
  unfold candidates. split.
  - induction tags as [|x tags IH]; simpl; [constructor|].
    destruct (Js.startsWith x (getName w)); now constructor.
  - intros t. rewrite !list_elem_of_In, filter_In, JsFacts.startsWith_iff. tauto.
Qed.

(** C3. [getNextVersionsByWorkspaces] hands to [getNextVersion], for every
    workspace, the tags that start with the workspace's name, in the order
    git listed them; it returns the results of all the workspaces in the
    order of the workspaces, and throws only what one of them threw.  With
    the tags b-2.0.0, a-1.5.0, a-1.4.0 the candidates of a workspace named [a]
    are a-1.5.0 and a-1.4.0, and the first of them that is an ancestor of
    HEAD is the reference. *)
Theorem getNextVersionsByWorkspaces_filters_and_combines
    (env : Env) (workspaces : list IWorkspace) (l : log) :
  (forall tags w,
     sublist (candidates tags w) tags
     /\ forall t, t ∈ candidates tags w <-> t ∈ tags /\ exists r, t = getName w +:+ r)
  /\ (forall out,
        run env git_tags_newest_first = Exit 0 out ->
        let tags := map Js.trim (Js.split Js.LF out) in
        getNextVersionsByWorkspaces env workspaces l
        = Promise_all (map (fun w => getNextVersion env (candidates tags w) w) workspaces)
                      (l ++ [git_tags_newest_first])
        /\ (forall results l',
              getNextVersionsByWorkspaces env workspaces l = (Ok results, l') ->
              Forall2 (fun w r => exists l1 l2,
                         getNextVersion env (candidates tags w) w l1 = (Ok r, l2))
                      workspaces results)
        /\ (forall e l',
              getNextVersionsByWorkspaces env workspaces l = (Throw e, l') ->
              Exists (fun w => exists l1 l2,
                        getNextVersion env (candidates tags w) w l1 = (Throw e, l2))
                     workspaces))
  /\ (forall w,
        getName w = "a" ->
        candidates ["b-2.0.0"; "a-1.5.0"; "a-1.4.0"] w = ["a-1.5.0"; "a-1.4.0"]
        /\ forall t l0,
             first_ancestor env ["a-1.5.0"; "a-1.4.0"] t ->
             getNextVersion env ["a-1.5.0"; "a-1.4.0"] w l0
             = (let* releaseType := analyzeCommitsSinceRef env (JStr t) (folder_of env w) in
                ret {[ "a" := Semver.inc (Js.remove_first t "a-") releaseType ]})
                 (l0 ++ ancestry_commands ["a-1.5.0"; "a-1.4.0"])).
Proof.
  split; [intros tags w; apply candidates_spec|]. split.
  - intros out Hout tags.
    assert (getNextVersionsByWorkspaces env workspaces l
            = Promise_all
                (map (fun w => getNextVersion env (candidates tags w) w) workspaces)
                (l ++ [git_tags_newest_first])) as Heq.
    { unfold getNextVersionsByWorkspaces, getTags. simpl.
      erewrite bind_ok; [reflexivity|].
      run_execa Hout. reflexivity. }
    split; [exact Heq|]. rewrite Heq. split.
    + intros results l' H. apply Promise_all_ok in H.
      now apply Forall2_fmap_l in H.
    + intros e l' H. apply Promise_all_throw in H.
      apply Exists_exists in H as (m & Hm & Hx).
      apply list_elem_of_fmap in Hm as (w & -> & Hw).
      apply Exists_exists. eauto.
  - intros w Hw. unfold candidates. rewrite Hw. split; [reflexivity|].
    intros t l0 Ht.
    rewrite getNextVersion_tags by discriminate.
    apply pLocate_check_first_ancestor in Ht. rewrite Ht, Hw. reflexivity.
Qed.

(** In the tagged repository, for the workspaces [a] and [c]: [a]'s
    reference is [a-1.4.0], the first of its tags that is an ancestor, and
    [c], which has no tag, starts from its first commit. *)
Lemma getNextVersionsByWorkspaces_filters_and_combines_witness :
  getNextVersionsByWorkspaces Scenario.repo_tagged [Scenario.a; Scenario.c] []
  = (Ok [ {[ "a" := Some "1.5.0" ]}; {[ "c" := None ]} ],
     [git_tags_newest_first; git_is_ancestor (JStr "a-1.5.0");
      git_is_ancestor (JStr "a-1.4.0"); git_first_commit "pkg-c"]).
Proof.
  destruct (getNextVersionsByWorkspaces_filters_and_combines
              Scenario.repo_tagged [Scenario.a; Scenario.c] []) as (_ & H & _).
  destruct (H ("b-2.0.0" +:+ Scenario.LF +:+ "a-1.5.0" +:+ Scenario.LF +:+ "a-1.4.0")
              eq_refl) as (Heq & _).
  rewrite Heq. reflexivity.
Defined.

(** *** [getWorkspacesChangedSinceRef] *)

Module UniqueFacts.

Lemma indexOf_seen (pre rest : list IWorkspace) (w : IWorkspace) :
  oid w ∈ map oid pre ->
  0 <= indexOf (map Some (pre ++ rest)) (Some w) < Z.of_nat (length pre).
Proof.
  induction pre as [|y pre IH]; simpl; intros Hin.
  - now apply elem_of_nil in Hin.
  - destruct (bool_decide (oid y = oid w)) eqn:E; [lia|].
    apply bool_decide_eq_false in E.
    apply elem_of_cons in Hin as [Hin|Hin]; [congruence|].
    specialize (IH Hin).
    destruct (indexOf (map Some (pre ++ rest)) (Some w) <? 0) eqn:Hlt; lia.
Qed.

Lemma indexOf_fresh (pre rest : list IWorkspace) (w : IWorkspace) :
  oid w ∉ map oid pre ->
  indexOf (map Some (pre ++ w :: rest)) (Some w) = Z.of_nat (length pre).
Proof.
  induction pre as [|y pre IH]; simpl; intros Hin.
  - now rewrite bool_decide_eq_true_2.
  - rewrite not_elem_of_cons in Hin. destruct Hin as [Hne Hin].
    rewrite bool_decide_eq_false_2 by congruence.
    rewrite (IH Hin).
    destruct (Z.of_nat (length pre) <? 0) eqn:Hlt; lia.
Qed.

(** The elements of [suf], numbered from the length of [pre], that the
    filter of [getWorkspacesChangedSinceRef] keeps. *)
Lemma keep_first_seen (pre suf : list IWorkspace) (seen : list nat) :
  (forall n, n ∈ seen <-> n ∈ map oid pre) ->
  map fst
    (List.filter
       (fun '(x, idx) => indexOf (map Some (pre ++ suf)) x =? idx)
       (imap (fun i x => (x, Z.of_nat (length pre + i))) (map Some suf)))
  = map Some (first_seen seen suf).
Proof.
  revert pre seen. induction suf as [|w suf IH]; intros pre seen Hseen.
  - reflexivity.
  - cbn [map first_seen]. rewrite imap_cons. cbn [List.filter].
    cbn beta. rewrite Nat.add_0_r.
    assert (imap ((fun i x => (x, Z.of_nat (length pre + i))) ∘ S) (map Some suf)
            = imap (fun i x => (x, Z.of_nat (length (pre ++ [w]) + i))) (map Some suf))
      as ->.
    { apply imap_ext. intros i x _. simpl. rewrite length_app. simpl.
      f_equal. f_equal. lia. }
    assert (pre ++ w :: suf = (pre ++ [w]) ++ suf) as Happ
      by now rewrite <- app_assoc.
    destruct (bool_decide (oid w ∈ seen)) eqn:Hw.
    + apply bool_decide_eq_true in Hw.
      pose proof (indexOf_seen pre (w :: suf) w (proj1 (Hseen _) Hw)) as Hi.
      destruct (indexOf (map Some (pre ++ w :: suf)) (Some w) =? Z.of_nat (length pre))
        eqn:Ht; [lia|].
      rewrite Happ. apply IH. intros n. rewrite Hseen, map_app, !elem_of_app.
      simpl. rewrite list_elem_of_singleton. split; [auto|].
      intros [H| ->]; [exact H|]. now apply Hseen.
    + apply bool_decide_eq_false in Hw.
      rewrite indexOf_fresh by (now rewrite <- Hseen).
      rewrite Z.eqb_refl. cbn [map fst]. f_equal.
      rewrite Happ. apply IH. intros n.
      rewrite elem_of_cons, Hseen, map_app, elem_of_app. simpl.
      rewrite list_elem_of_singleton. tauto.
Qed.

Lemma filter_indexed_first_seen (ws : list IWorkspace) :
  filter_indexed (fun pkg idx packages => indexOf packages pkg =? idx) (map Some ws)
  = map Some (first_seen [] ws).
Proof.
  unfold filter_indexed. exact (keep_first_seen [] ws [] (fun n => iff_refl _)).
Qed.

Lemma existing_files_mapped env (files : list string) (pkgs : list IWorkspace) :
  map (fun f => fileNameToPackage env f pkgs)
      (List.filter (fun f => fileExistsInPackage env f pkgs) files)
  = map Some (omap (fun f => fileNameToPackage env f pkgs) files).
Proof.
  induction files as [|f files IH]; [reflexivity|]. simpl.
  unfold fileExistsInPackage at 1.
  destruct (fileNameToPackage env f pkgs) as [w|] eqn:E; simpl.
  - now rewrite E, IH.
  - exact IH.
Qed.

Lemma first_seen_sublist seen l : sublist (first_seen seen l) l.
Proof.
  revert seen. induction l as [|w l IH]; intros seen; simpl; [constructor|].
  destruct (bool_decide (oid w ∈ seen)); constructor; apply IH.
Qed.

Lemma first_seen_fresh seen l w : w ∈ first_seen seen l -> oid w ∉ seen.
Proof.
  revert seen. induction l as [|x l IH]; intros seen; simpl.
  - intros H. now apply elem_of_nil in H.
  - destruct (bool_decide (oid x ∈ seen)) eqn:E; [apply IH|].
    apply bool_decide_eq_false in E.
    intros H. apply elem_of_cons in H as [->|H]; [exact E|].
    apply IH in H. rewrite not_elem_of_cons in H. tauto.
Qed.

Lemma first_seen_NoDup seen l : NoDup (map oid (first_seen seen l)).
Proof.
  revert seen. induction l as [|x l IH]; intros seen; simpl; [constructor|].
  destruct (bool_decide (oid x ∈ seen)); [apply IH|].
  simpl. constructor; [|apply IH].
  intros H. apply list_elem_of_fmap in H as (w & Hw & Hin).
  apply first_seen_fresh in Hin. rewrite not_elem_of_cons in Hin.
  destruct Hin as [Hne _]. congruence.
Qed.

Lemma first_seen_complete seen l w :
  w ∈ l -> oid w ∈ seen \/ exists w', w' ∈ first_seen seen l /\ oid w' = oid w.
Proof.
  revert seen. induction l as [|x l IH]; intros seen; simpl.
  - intros H. now apply elem_of_nil in H.
  - intros H. apply elem_of_cons in H as [->|H].
    + destruct (bool_decide (oid x ∈ seen)) eqn:E.
      * apply bool_decide_eq_true in E. now left.
      * right. exists x. split; [left|reflexivity].
    + destruct (bool_decide (oid x ∈ seen)) eqn:E; [now apply IH|].
      destruct (IH (oid x :: seen) H) as [Hs|(w' & Hw' & Ho)].
      * apply elem_of_cons in Hs as [Hs|Hs]; [|now left].
        right. exists x. split; [left|now symmetry].
      * right. exists w'. split; [now right|exact Ho].
Qed.

End UniqueFacts.

Lemma getWorkspacesChangedSinceRef_run env ref opts l changedFiles l1 allPackages l' :
  getChangedFilesSinceRef env ref true l = (Ok changedFiles, l1) ->
  getWorkspaces env opts l1 = (Ok allPackages, l') ->
  getWorkspacesChangedSinceRef env ref opts l
  = (Ok (map Some (first_seen []
                     (omap (fun f => fileNameToPackage env f allPackages) changedFiles))),
     l').
Proof.
  intros Hfiles Hpkgs. unfold getWorkspacesChangedSinceRef.
  run_ok Hfiles. run_ok Hpkgs.
  unfold ret. rewrite UniqueFacts.existing_files_mapped.
  now rewrite UniqueFacts.filter_indexed_first_seen.
Qed.

(** C4. Once the changed files and the packages are there,
    [getWorkspacesChangedSinceRef] returns workspace objects, each once, in
    the order in which the changed files first reach them.  Every one of them
    owns a changed file, every changed file that has an owner is represented,
    and a file without an owner adds nothing.  With [a] in /repo/pkg-a, [b]
    in /repo/pkg-b and the changed files /repo/pkg-a/x.ts, /repo/pkg-b/y.ts,
    /repo/deleted.ts the result is [a; b]. *)
Theorem getWorkspacesChangedSinceRef_unique_in_order
    (env : Env) (ref : jsstring) (opts : IFilterOpts) (l : log)
    (changedFiles : list string) (l1 : log)
    (allPackages : list IWorkspace) (l' : log) :
  getChangedFilesSinceRef env ref true l = (Ok changedFiles, l1) ->
  getWorkspaces env opts l1 = (Ok allPackages, l') ->
  exists ws,
    getWorkspacesChangedSinceRef env ref opts l = (Ok (map Some ws), l')
    /\ ws = first_seen []
              (omap (fun f => fileNameToPackage env f allPackages) changedFiles)
    /\ sublist ws (omap (fun f => fileNameToPackage env f allPackages) changedFiles)
    /\ NoDup (map oid ws)
    /\ (forall w, w ∈ ws ->
          exists f, f ∈ changedFiles /\ fileNameToPackage env f allPackages = Some w)
    /\ (forall f w, f ∈ changedFiles ->
          fileNameToPackage env f allPackages = Some w ->
          exists w', w' ∈ ws /\ oid w' = oid w)
    /\ (forall a b,
          isWin env = false ->
          dir a = "/repo/pkg-a" -> dir b = "/repo/pkg-b" -> oid a <> oid b ->
          allPackages = [a; b] ->
          changedFiles = ["/repo/pkg-a/x.ts"; "/repo/pkg-b/y.ts"; "/repo/deleted.ts"] ->
          ws = [a; b]).
Proof.
  intros Hfiles Hpkgs.
  exists (first_seen []
            (omap (fun f => fileNameToPackage env f allPackages) changedFiles)).
  split; [exact (getWorkspacesChangedSinceRef_run _ _ _ _ _ _ _ _ Hfiles Hpkgs)|].
  split; [reflexivity|].
  split; [apply UniqueFacts.first_seen_sublist|].
  split; [apply UniqueFacts.first_seen_NoDup|].
  split; [|split].
  - intros w Hw.
    eapply elem_of_sublist in Hw; [|apply UniqueFacts.first_seen_sublist].
    apply list_elem_of_omap in Hw. exact Hw.
  - intros f w Hf Hw.
    destruct (UniqueFacts.first_seen_complete []
                (omap (fun f => fileNameToPackage env f allPackages) changedFiles) w)
      as [Hs|Hw'].
    + apply list_elem_of_omap. eauto.
    + now apply elem_of_nil in Hs.
    + exact Hw'.
  - intros a b Hwin Ha Hb Hab -> ->.
    unfold fileNameToPackage, path_sep. rewrite Hwin. simpl.
    rewrite Ha, Hb. simpl.
    rewrite bool_decide_eq_false_2 by (rewrite list_elem_of_singleton; congruence).
    reflexivity.
Qed.

(** In the example repository the files changed since [v1] are x.ts of [a],
    y.ts of [b] and a deleted file of nobody. *)
Lemma getWorkspacesChangedSinceRef_unique_in_order_witness :
  exists ws,
    getWorkspacesChangedSinceRef Scenario.repo1 (JStr "v1") Scenario.no_filter []
    = (Ok (map Some ws), [git_merge_base (JStr "v1"); git_diff "4f2a9c1"])
    /\ ws = [Scenario.a; Scenario.b]
    /\ NoDup (map oid ws).
Proof.
  destruct (getWorkspacesChangedSinceRef_unique_in_order
              Scenario.repo1 (JStr "v1") Scenario.no_filter []
              ["/repo/pkg-a/x.ts"; "/repo/pkg-b/y.ts"; "/repo/deleted.ts"]
              [git_merge_base (JStr "v1"); git_diff "4f2a9c1"]
              [Scenario.a; Scenario.b]
              [git_merge_base (JStr "v1"); git_diff "4f2a9c1"]
              eq_refl eq_refl)
    as (ws & Hrun & _ & _ & Hnd & _ & _ & Hscenario).
  exists ws. split; [exact Hrun|]. split; [|exact Hnd].
  apply (Hscenario Scenario.a Scenario.b); try reflexivity. discriminate.
Defined.

(** *** [getChangesFromLastTagByWorkspaces] *)

Module BucketFacts.
Import Js.

(** The last element of a split is the last segment of the string. *)
Lemma last_split sep s :
  exists b,
    last (split sep s) = Some b
    /\ all_chars (fun c => negb (Ascii.eqb c sep)) b = true
    /\ ((s = b /\ split sep s = [b])
        \/ (exists d, s = d +:+ String sep b) /\ (2 <= length (split sep s))%nat).
Proof.
  induction s as [|c s (b & Hlast & Hb & IH)].
  - exists EmptyString. simpl. auto.
  - simpl. destruct (split sep s) as [|h t] eqn:E.
    { now destruct (JsFacts.split_not_nil sep s). }
    destruct (Ascii.eqb c sep) eqn:Hc.
    + apply Ascii.eqb_eq in Hc. subst c. exists b.
      split; [exact Hlast|]. split; [exact Hb|]. right. split; [|simpl; lia].
      destruct IH as [[-> _]|[[d ->] _]].
      * exists EmptyString. reflexivity.
      * exists (String sep d). reflexivity.
    + destruct IH as [[-> [= -> ->]]|[[d ->] Hlen]].
      * exists (String c b). simpl. rewrite Hc. simpl. auto.
      * exists b. destruct t as [|h' t]; [simpl in Hlen; lia|].
        split; [exact Hlast|]. split; [exact Hb|]. right.
        split; [exists (String c d); reflexivity|simpl; lia].
Qed.

Lemma at_last_basename sep s :
  exists b, at_last (split sep s) = JStr b /\ basename_of sep s b.
Proof.
  destruct (last_split sep s) as (b & Hlast & Hb & H).
  exists b. unfold at_last, basename_of. rewrite Hlast.
  split; [reflexivity|]. split; [exact Hb|].
  destruct H as [[-> _]|[Hd _]]; auto.
Qed.

Lemma basenames sep (files : list string) :
  exists names,
    map (fun change => at_last (split sep change)) files = map JStr names
    /\ Forall2 (basename_of sep) files names.
Proof.
  induction files as [|f files (names & Heq & Hall)].
  - exists []. split; [reflexivity|constructor].
  - destruct (at_last_basename sep f) as (b & Hb & Hbase).
    exists (b :: names). simpl. rewrite Hb, Heq. split; [reflexivity|].
    now constructor.
Qed.

(** Inserting, for each workspace in turn, a value that depends on its
    directory alone. *)
Lemma foldl_insert_lookup {V} (val : string -> V) (pkgs : list IWorkspace)
    (m : gmap string V) (k : string) :
  foldl (fun result w => <[dir w := val (dir w)]> result) m pkgs !! k
  = if bool_decide (k ∈ map dir pkgs) then Some (val k) else m !! k.
Proof.
  revert m. induction pkgs as [|w pkgs IH]; intros m; simpl.
  - reflexivity.
  - rewrite IH. destruct (bool_decide (k ∈ map dir pkgs)) eqn:E.
    + apply bool_decide_eq_true in E.
      rewrite bool_decide_eq_true_2; [reflexivity|now right].
    + apply bool_decide_eq_false in E.
      destruct (decide (dir w = k)) as [->|Hne].
      * rewrite lookup_insert_eq, bool_decide_eq_true_2; [reflexivity|left].
      * rewrite lookup_insert_ne by exact Hne.
        rewrite bool_decide_eq_false_2; [reflexivity|].
        rewrite not_elem_of_cons. split; [congruence|exact E].
Qed.

End BucketFacts.

Lemma filter_includes_contains (changedFiles : list string) (d f : string) :
  f ∈ List.filter (fun f => Js.includes f d) changedFiles
  <-> f ∈ changedFiles /\ contains f d.
Proof.
  rewrite !list_elem_of_In, filter_In, JsFacts.includes_iff. reflexivity.
Qed.

(** C5. Once the tags, the last tag in history, the changed files and the
    packages are there, [getChangesFromLastTagByWorkspaces] returns an object
    in which every workspace's directory is a key; the value at a directory
    lists the last segments of exactly the changed files that contain the
    directory, in their order; a workspace no changed file contains has the
    empty list; and no other key is present. *)
Theorem getChangesFromLastTagByWorkspaces_buckets
    (env : Env) (opts : IFilterOpts) (l : log)
    (tags : list string) (l0 : log) (tag : jsstring) (l1 : log)
    (changedFiles : list string) (l2 : log)
    (allPackages : list IWorkspace) (l' : log) :
  getTags env true l = (Ok tags, l0) ->
  pLocate tags (fun t => isRefInHistory env (JStr t)) l0 = (Ok tag, l1) ->
  getChangedFilesSinceRef env tag true l1 = (Ok changedFiles, l2) ->
  getWorkspaces env opts l2 = (Ok allPackages, l') ->
  exists result,
    getChangesFromLastTagByWorkspaces env opts l = (Ok result, l')
    /\ (forall w, w ∈ allPackages ->
          exists names,
            result !! dir w = Some (map JStr names)
            /\ Forall2 (basename_of (split_sep env))
                 (List.filter (fun f => Js.includes f (dir w)) changedFiles) names)
    /\ (forall w f,
          f ∈ List.filter (fun f => Js.includes f (dir w)) changedFiles
          <-> f ∈ changedFiles /\ contains f (dir w))
    /\ (forall w, w ∈ allPackages ->
          (forall f, f ∈ changedFiles -> ~ contains f (dir w)) ->
          result !! dir w = Some [])
    /\ (forall k, is_Some (result !! k) -> exists w, w ∈ allPackages /\ dir w = k).
Proof.
  intros Htags Htag Hfiles Hpkgs.
  eexists. split.
  { unfold getChangesFromLastTagByWorkspaces.
    run_ok Htags. run_ok Htag.
    run_ok Hfiles. run_ok Hpkgs.
    reflexivity. }
  set (val := fun d : string =>
         map (fun change => Js.at_last (Js.split (split_sep env) change))
             (List.filter (fun f => Js.includes f d) changedFiles)).
  assert (forall k,
            foldl (fun result w => <[dir w := val (dir w)]> result)
                  (∅ : gmap string (list jsstring)) allPackages !! k
            = if bool_decide (k ∈ map dir allPackages) then Some (val k) else None)
    as Hlookup.
  { intros k. rewrite BucketFacts.foldl_insert_lookup. now rewrite lookup_empty. }
  assert (forall w, w ∈ allPackages -> dir w ∈ map dir allPackages) as Hdir.
  { intros w Hw. now apply (list_elem_of_fmap_2 dir). }
  split; [|split; [|split]].
  - intros w Hw.
    destruct (BucketFacts.basenames (split_sep env)
                (List.filter (fun f => Js.includes f (dir w)) changedFiles))
      as (names & Hnames & Hall).
    exists names. split; [|exact Hall].
    rewrite Hlookup, bool_decide_eq_true_2 by now apply Hdir.
    unfold val. now rewrite Hnames.
  - intros w f. apply filter_includes_contains.
  - intros w Hw Hnone.
    rewrite Hlookup, bool_decide_eq_true_2 by now apply Hdir.
    unfold val.
    destruct (List.filter (fun f => Js.includes f (dir w)) changedFiles) as [|f fs] eqn:E;
      [reflexivity|].
    assert (f ∈ List.filter (fun f => Js.includes f (dir w)) changedFiles) as Hf
      by (rewrite E; left).
    apply filter_includes_contains in Hf as [Hin Hc]. now destruct (Hnone f Hin).
  - intros k [v Hv]. rewrite Hlookup in Hv.
    destruct (bool_decide (k ∈ map dir allPackages)) eqn:E; [|discriminate].
    apply bool_decide_eq_true in E.
    apply list_elem_of_fmap in E as (w & -> & Hw). eauto.
Qed.

(** In the example repository the last tag in history is [v1]; x.ts goes to
    [a]'s directory and y.ts to [b]'s. *)
Lemma getChangesFromLastTagByWorkspaces_buckets_witness :
  exists result : gmap string (list jsstring),
    getChangesFromLastTagByWorkspaces Scenario.repo1 Scenario.no_filter []
    = (Ok result,
       [git_tags_newest_first; git_is_ancestor (JStr "v1"); git_is_ancestor (JStr "v0");
        git_merge_base (JStr "v1"); git_diff "4f2a9c1"])
    /\ result = <["/repo/pkg-b" := [JStr "y.ts"]]> {[ "/repo/pkg-a" := [JStr "x.ts"] ]}
    /\ forall k, is_Some (result !! k) ->
                 exists w, w ∈ [Scenario.a; Scenario.b] /\ dir w = k.
Proof.
  destruct (getChangesFromLastTagByWorkspaces_buckets
              Scenario.repo1 Scenario.no_filter []
              ["v1"; "v0"] [git_tags_newest_first]
              (JStr "v1")
              [git_tags_newest_first; git_is_ancestor (JStr "v1");
               git_is_ancestor (JStr "v0")]
              ["/repo/pkg-a/x.ts"; "/repo/pkg-b/y.ts"; "/repo/deleted.ts"]
              [git_tags_newest_first; git_is_ancestor (JStr "v1");
               git_is_ancestor (JStr "v0");
               git_merge_base (JStr "v1"); git_diff "4f2a9c1"]
              [Scenario.a; Scenario.b]
              [git_tags_newest_first; git_is_ancestor (JStr "v1");
               git_is_ancestor (JStr "v0");
               git_merge_base (JStr "v1"); git_diff "4f2a9c1"]
              eq_refl eq_refl eq_refl eq_refl)
    as (result & Hrun & _ & _ & _ & Hkeys).
  exists result. split; [exact Hrun|]. split; [|exact Hkeys].
  assert (getChangesFromLastTagByWorkspaces Scenario.repo1 Scenario.no_filter []
          = (Ok (<["/repo/pkg-b" := [JStr "y.ts"]]> {[ "/repo/pkg-a" := [JStr "x.ts"] ]}),
             [git_tags_newest_first; git_is_ancestor (JStr "v1");
              git_is_ancestor (JStr "v0");
              git_merge_base (JStr "v1"); git_diff "4f2a9c1"])) as Hval
    by reflexivity.
  rewrite Hrun in Hval. now injection Hval.
Defined.

(** The tags of a workspace are found by its name alone, without the hyphen
    that [getNextVersion] then removes.  So the tags of [ui-kit] are also
    candidates for [ui]; the newest of them is taken as [ui]'s reference,
    what is left of it is no version, and [ui] gets [null]. *)
Example getNextVersionsByWorkspaces_shared_name_prefix :
  candidates ["ui-kit-2.0.0"; "ui-1.0.0"] Scenario.ui = ["ui-kit-2.0.0"; "ui-1.0.0"]
  /\ getNextVersionsByWorkspaces Scenario.repo_ui [Scenario.ui; Scenario.ui_kit] []
     = (Ok [ {[ "ui" := None ]}; {[ "ui-kit" := Some "2.1.0" ]} ],
        [git_tags_newest_first;
         git_is_ancestor (JStr "ui-kit-2.0.0"); git_is_ancestor (JStr "ui-1.0.0");
         git_is_ancestor (JStr "ui-kit-2.0.0")]).
Proof. split; reflexivity. Qed.

(** * Further properties of the code *)

(** ** Lines and trimming *)

Module LineFacts.
Import Js.

Lemma join_split sep s : join (String sep EmptyString) (split sep s) = s.
Proof.
  induction s as [|c s IH]; [reflexivity|]. simpl.
  pose proof (JsFacts.split_not_nil sep s) as Hne.
  destruct (split sep s) as [|h t] eqn:E; [congruence|].
  destruct (Ascii.eqb c sep) eqn:Hc.
  - apply Ascii.eqb_eq in Hc. subst c.
    change (join (String sep EmptyString) (EmptyString :: h :: t))
      with (String sep (join (String sep EmptyString) (h :: t))).
    now rewrite IH.
  - destruct t as [|h' t]; simpl in *; now rewrite <- IH.
Qed.

Lemma length_split sep s : length (split sep s) = S (count_char sep s).
Proof.
  induction s as [|c s IH]; [reflexivity|]. simpl.
  pose proof (JsFacts.split_not_nil sep s) as Hne.
  destruct (Ascii.eqb c sep); simpl; [now rewrite IH|].
  destruct (split sep s) as [|h t]; [congruence|]. exact IH.
Qed.

Lemma split_elements sep s :
  Forall (fun x => all_chars (fun c => negb (Ascii.eqb c sep)) x = true) (split sep s).
Proof.
  induction s as [|c s IH]; simpl; [repeat constructor|].
  destruct (Ascii.eqb c sep) eqn:Hc; [constructor; [reflexivity|exact IH]|].
  destruct (split sep s) as [|h t]; [repeat constructor; simpl; now rewrite Hc|].
  inversion IH as [|? ? Hh Ht]; subst. constructor; [|exact Ht].
  simpl. now rewrite Hc, Hh.
Qed.

Lemma trimStart_no_leading s : no_leading_space (trimStart s) = true.
Proof.
  induction s as [|c s IH]; [reflexivity|]. simpl.
  destruct (is_whitespace c) eqn:Hc; [exact IH|]. simpl. now rewrite Hc.
Qed.

Lemma trimEnd_no_leading s :
  no_leading_space s = true -> no_leading_space (trimEnd s) = true.
Proof.
  destruct s as [|c s]; [reflexivity|]. simpl. intros Hc.
  destruct (trimEnd s); simpl; [|exact Hc].
  apply negb_true_iff in Hc. rewrite Hc. simpl. now rewrite Hc.
Qed.

Lemma trim_no_leading s : no_leading_space (trim s) = true.
Proof. apply trimEnd_no_leading, trimStart_no_leading. Qed.

Lemma trimStart_id s : no_leading_space s = true -> trimStart s = s.
Proof.
  destruct s as [|c s]; [reflexivity|]. simpl. intros Hc.
  apply negb_true_iff in Hc. now rewrite Hc.
Qed.

Lemma trimEnd_idem s : trimEnd (trimEnd s) = trimEnd s.
Proof.
  induction s as [|c s IH]; [reflexivity|]. simpl.
  destruct (trimEnd s) as [|d t] eqn:E.
  - destruct (is_whitespace c) eqn:Hc; [reflexivity|]. simpl. now rewrite Hc.
  - simpl. simpl in IH. rewrite IH. reflexivity.
Qed.

(** Trimming what is trimmed changes nothing. *)
Lemma trim_idem s : trim (trim s) = trim s.
Proof.
  unfold trim at 1. rewrite trimStart_id by apply trim_no_leading.
  unfold trim. apply trimEnd_idem.
Qed.

Lemma all_chars_trimStart p s : all_chars p s = true -> all_chars p (trimStart s) = true.
Proof.
  induction s as [|c s IH]; [reflexivity|]. simpl. intros H.
  apply andb_true_iff in H as [Hc Hs].
  destruct (is_whitespace c); [now apply IH|]. simpl. now rewrite Hc, Hs.
Qed.

Lemma all_chars_trimEnd p s : all_chars p s = true -> all_chars p (trimEnd s) = true.
Proof.
  induction s as [|c s IH]; [reflexivity|]. simpl. intros H.
  apply andb_true_iff in H as [Hc Hs]. specialize (IH Hs).
  destruct (trimEnd s) as [|d t].
  - destruct (is_whitespace c); [reflexivity|]. simpl. now rewrite Hc.
  - simpl in *. now rewrite Hc, IH.
Qed.

Lemma all_chars_trim p s : all_chars p s = true -> all_chars p (trim s) = true.
Proof. intros H. now apply all_chars_trimEnd, all_chars_trimStart. Qed.

(** The first element of a split begins like the string. *)
Lemma first_split_no_leading sep s x :
  first (split sep s) = JStr x ->
  no_leading_space s = true -> no_leading_space x = true.
Proof.
  destruct s as [|c s]; simpl.
  - now intros [= <-].
  - destruct (Ascii.eqb c sep); [now intros [= <-]|].
    destruct (split sep s); now intros [= <-].
Qed.

Lemma first_split_one_line s x : first (split LF s) = JStr x -> one_line x = true.
Proof.
  pose proof (split_elements LF s) as H.
  destruct (split LF s) as [|h t]; [discriminate|]. simpl. intros [= <-].
  now inversion H.
Qed.

(** The first line of a trimmed output: one line, no white space in front. *)
Lemma first_line_clean out :
  exists x, first (split LF (trim out)) = JStr x
            /\ one_line x = true /\ no_leading_space x = true.
Proof.
  pose proof (JsFacts.split_not_nil LF (trim out)) as Hne.
  destruct (first (split LF (trim out))) as [| |x] eqn:E;
    try (destruct (split LF (trim out)); [congruence|discriminate]).
  exists x. split; [reflexivity|]. split.
  - eapply first_split_one_line, E.
  - eapply first_split_no_leading; [exact E|apply trim_no_leading].
Qed.

Lemma append_assoc (a b c : string) : (a +:+ b) +:+ c = a +:+ (b +:+ c).
Proof. induction a as [|x a IH]; simpl; [reflexivity|]. now rewrite IH. Qed.

Lemma all_chars_app p (a b : string) :
  all_chars p (a +:+ b) = all_chars p a && all_chars p b.
Proof. induction a as [|x a IH]; simpl; [reflexivity|]. now rewrite IH, andb_assoc. Qed.

(** Lines that each end with a line feed are, but for the last line feed,
    the lines joined by line feeds. *)
Lemma print_lines_join names :
  names <> [] ->
  print_lines names = join (String LF EmptyString) names +:+ String LF EmptyString.
Proof.
  induction names as [|x names IH]; [congruence|]. intros _.
  destruct names as [|y names]; [reflexivity|].
  change (print_lines (x :: y :: names)) with (x +:+ String LF (print_lines (y :: names))).
  change (join (String LF EmptyString) (x :: y :: names))
    with (x +:+ String LF EmptyString +:+ join (String LF EmptyString) (y :: names)).
  rewrite IH by discriminate. now rewrite !append_assoc.
Qed.

Lemma all_chars_join p names :
  p LF = true -> Forall (fun x => all_chars p x = true) names ->
  all_chars p (join (String LF EmptyString) names) = true.
Proof.
  intros Hp Hall. induction Hall as [|x names Hx _ IH]; [reflexivity|].
  destruct names as [|y names]; [exact Hx|].
  change (join (String LF EmptyString) (x :: y :: names))
    with (x +:+ String LF EmptyString +:+ join (String LF EmptyString) (y :: names)).
  rewrite !all_chars_app, Hx, IH. simpl. now rewrite Hp.
Qed.

Lemma split_app_sep sep x rest :
  all_chars (fun c => negb (Ascii.eqb c sep)) x = true ->
  split sep (x +:+ String sep rest) = x :: split sep rest.
Proof.
  induction x as [|c x IH]; simpl.
  - now rewrite Ascii.eqb_refl.
  - intros H. apply andb_true_iff in H as [Hc Hx]. apply negb_true_iff in Hc.
    now rewrite Hc, (IH Hx).
Qed.

(** Cutting at the line feeds undoes the joining of lines. *)
Lemma split_join names :
  names <> [] -> Forall (fun x => one_line x = true) names ->
  split LF (join (String LF EmptyString) names) = names.
Proof.
  intros Hne Hall. induction Hall as [|x names Hx _ IH]; [congruence|].
  destruct names as [|y names]; [now apply JsFacts.split_no_sep|].
  change (join (String LF EmptyString) (x :: y :: names))
    with (x +:+ String LF (join (String LF EmptyString) (y :: names))).
  rewrite split_app_sep by exact Hx.
  f_equal. now apply IH.
Qed.

Lemma no_space_one_line x : no_space x = true -> one_line x = true.
Proof.
  apply GitFacts.all_chars_impl. intros c.
  destruct c as [[] [] [] [] [] [] [] []]; vm_compute; congruence.
Qed.

Lemma no_space_no_CR x :
  no_space x = true -> all_chars (fun c => negb (Ascii.eqb c CR)) x = true.
Proof.
  apply GitFacts.all_chars_impl. intros c.
  destruct c as [[] [] [] [] [] [] [] []]; vm_compute; congruence.
Qed.

(** What execa hands on of the lines git printed, cut at the line feeds, is
    the lines. *)
Lemma split_strip_print_lines names :
  names <> [] -> Forall (fun x => no_space x = true) names ->
  split LF (strip_final_newline (print_lines names)) = names.
Proof.
  intros Hne Hall.
  rewrite print_lines_join by exact Hne.
  rewrite ExecaFacts.strip_line.
  - apply split_join; [exact Hne|].
    eapply Forall_impl; [exact Hall|]. apply no_space_one_line.
  - apply all_chars_join; [reflexivity|].
    eapply Forall_impl; [exact Hall|]. apply no_space_no_CR.
Qed.

End LineFacts.

(** ** git.ts *)

Lemma execa_run env file args l :
  execa env file args l = (settled (spawn env file args), l ++ [(file, args)]).
Proof.
  unfold execa, settled.
  destruct (spawn env file args) as [[|p|p] out| |]; reflexivity.
Qed.

Lemma settled_ok r out : settled r = Ok out <-> r = Exit 0 out.
Proof.
  unfold settled. destruct r as [[|p|p] out'| |]; split; try discriminate;
    intros [= ->]; reflexivity.
Qed.

Lemma settled_throw r : (forall out, r <> Exit 0 out) -> settled r = Throw (ExecaError r).
Proof.
  unfold settled. intros H. destruct r as [[|p|p] out'| |]; try reflexivity.
  now destruct (H out').
Qed.

(** X1. [getLatestTag] never throws and never returns [undefined].  When
    [git describe] does not exit with 0, as in a repository without tags, the
    result is [null]; otherwise it is the first line of the trimmed output:
    a string of one line that does not begin with white space. *)
Theorem getLatestTag_null_or_line (env : Env) (l : log) :
  let r := run env git_describe in
  let l' := l ++ [git_describe] in
  ((forall out, r <> Exit 0 out) -> getLatestTag env l = (Ok JNull, l'))
  /\ (forall out, r = Exit 0 out ->
        exists tag, getLatestTag env l = (Ok (JStr tag), l')
                    /\ Js.first (Js.split Js.LF (Js.trim out)) = JStr tag
                    /\ one_line tag = true /\ no_leading_space tag = true)
  /\ (exists v, getLatestTag env l = (Ok v, l') /\ v <> JUndefined).
Proof.
  cbv zeta. unfold run, git_describe, getLatestTag, try_catch, bind. simpl.
  rewrite execa_run.
  assert (forall out,
            spawn env "git" [JStr "describe"; JStr "--tags"; JStr "--abbrev=0"] = Exit 0 out ->
            exists tag,
              (ret (Js.first (Js.split Js.LF (Js.trim out)))
                 (l ++ [("git", [JStr "describe"; JStr "--tags"; JStr "--abbrev=0"])])
               : outcome jsstring * log)
              = (Ok (JStr tag), l ++ [("git", [JStr "describe"; JStr "--tags"; JStr "--abbrev=0"])])
              /\ Js.first (Js.split Js.LF (Js.trim out)) = JStr tag
              /\ one_line tag = true /\ no_leading_space tag = true) as Hline.
  { intros out _. destruct (LineFacts.first_line_clean out) as (x & Hx & H1 & H2).
    exists x. unfold ret. now rewrite Hx. }
  split; [|split].
  - intros H. now rewrite (settled_throw _ H).
  - intros out Hr. rewrite Hr. simpl. now apply Hline.
  - destruct (spawn env "git" [JStr "describe"; JStr "--tags"; JStr "--abbrev=0"])
      as [[|p|p] out| |] eqn:E; simpl;
      try (eexists; split; [reflexivity|discriminate]).
    destruct (Hline out eq_refl) as (tag & Hrun & _).
    exists (JStr tag). split; [exact Hrun|discriminate].
Qed.

(** X2. A string that [getRef] returns is one line and does not begin with
    white space, whatever git printed; [getRef] never returns [undefined]. *)
Theorem getRef_single_line (env : Env) (name : string) (l : log) :
  (forall s l', getRef env name l = (Ok (JStr s), l') ->
     one_line s = true /\ no_leading_space s = true)
  /\ (forall l', getRef env name l <> (Ok JUndefined, l')).
Proof.
  unfold getRef, try_catch, bind. rewrite execa_run.
  destruct (settled (spawn env "git" [JStr "rev-parse"; JStr name])) as [out|e];
    unfold ret.
  - destruct (LineFacts.first_line_clean out) as (x & Hx & H1 & H2). rewrite Hx.
    split; [|discriminate]. now intros s l' [= <- _].
  - split; discriminate.
Qed.

(** X3. The absolute list of [getChangedFilesSinceRef] is its relative list
    with [path.resolve] applied to every element: the same commands are
    spawned, the same number of files comes back in the same order, and a
    call that fails in one mode fails with the same error in the other. *)
Theorem getChangedFilesSinceRef_fullPath_resolves (env : Env) (ref : jsstring) (l : log) :
  match getChangedFilesSinceRef env ref false l with
  | (Ok files, l') =>
      getChangedFilesSinceRef env ref true l = (Ok (map (path_resolve env) files), l')
  | (Throw e, l') => getChangedFilesSinceRef env ref true l = (Throw e, l')
  end.
Proof.
  unfold getChangedFilesSinceRef. destruct (decide (ref = JNull)); [reflexivity|].
  unfold bind. rewrite execa_run.
  destruct (settled (spawn env "git" [JStr "merge-base"; ref; JStr "HEAD"])) as [base|e];
    [|reflexivity].
  rewrite execa_run.
  destruct (settled (spawn env "git" [JStr "diff"; JStr "--name-only"; JStr (Js.trim base)]));
    reflexivity.
Qed.

(** X4. A git command that fails ends [getChangedFilesSinceRef] where it
    stands: when the merge-base is not found (an unknown ref, or [undefined]),
    execa's error is thrown and no diff is spawned; when the diff fails, its
    error is thrown.  Neither is the error thrown for a [null] ref. *)
Theorem getChangedFilesSinceRef_stops_at_failure
    (env : Env) (ref : jsstring) (fullPath : bool) (l : log) :
  ref <> JNull ->
  ((forall out, run env (git_merge_base ref) <> Exit 0 out) ->
   getChangedFilesSinceRef env ref fullPath l
   = (Throw (ExecaError (run env (git_merge_base ref))), l ++ [git_merge_base ref]))
  /\ (forall base,
        run env (git_merge_base ref) = Exit 0 base ->
        (forall out, run env (git_diff (Js.trim base)) <> Exit 0 out) ->
        getChangedFilesSinceRef env ref fullPath l
        = (Throw (ExecaError (run env (git_diff (Js.trim base)))),
           l ++ [git_merge_base ref; git_diff (Js.trim base)])).
Proof.
  intros Hnull. unfold getChangedFilesSinceRef.
  destruct (decide (ref = JNull)); [contradiction|]. split.
  - intros H. unfold bind. rewrite execa_run.
    unfold run, git_merge_base in *. simpl in *. now rewrite (settled_throw _ H).
  - intros base Hbase H. run_execa Hbase.
    unfold bind. rewrite execa_run.
    unfold run, git_diff in *. simpl in *.
    now rewrite (settled_throw _ H), <- app_assoc.
Qed.

(** In the example repository git knows neither [nope] nor a ref called
    undefined: both calls stop after the merge-base with git's exit code. *)
Lemma getChangedFilesSinceRef_stops_at_failure_witness :
  getChangedFilesSinceRef Scenario.repo1 (JStr "nope") true []
  = (Throw (ExecaError (Exit 128 "")), [git_merge_base (JStr "nope")])
  /\ getChangedFilesSinceRef Scenario.repo1 JUndefined true []
     = (Throw (ExecaError (Exit 128 "")), [git_merge_base JUndefined]).
Proof.
  split.
  - apply (getChangedFilesSinceRef_stops_at_failure Scenario.repo1 (JStr "nope") true []);
      [discriminate|]. intros out. vm_compute. discriminate.
  - apply (getChangedFilesSinceRef_stops_at_failure Scenario.repo1 JUndefined true []);
      [discriminate|]. intros out. vm_compute. discriminate.
Defined.

(** X5. The relative file list is git's trimmed output cut at the line
    feeds and nothing else: joined by line feeds it gives the trimmed output
    back, it has one element more than the output has line feeds, and no
    element holds a line feed. *)
Theorem getChangedFilesSinceRef_lines
    (env : Env) (ref : jsstring) (l : log) (files : list string) (l' : log) :
  getChangedFilesSinceRef env ref false l = (Ok files, l') ->
  exists base out,
    run env (git_merge_base ref) = Exit 0 base
    /\ run env (git_diff (Js.trim base)) = Exit 0 out
    /\ join (String Js.LF EmptyString) files = Js.trim out
    /\ length files = S (count_char Js.LF (Js.trim out))
    /\ Forall (fun f => one_line f = true) files.
Proof.
  unfold getChangedFilesSinceRef. destruct (decide (ref = JNull)); [discriminate|].
  intros H. apply bind_inv_ok in H as (base & l1 & Hbase & H).
  apply bind_inv_ok in H as (out & l2 & Hout & H).
  rewrite execa_run in Hbase, Hout.
  injection Hbase as Hbase _. injection Hout as Hout _.
  apply settled_ok in Hbase, Hout. injection H as <- _.
  exists base, out. split; [exact Hbase|]. split; [exact Hout|].
  split; [apply LineFacts.join_split|].
  split; [apply LineFacts.length_split|apply LineFacts.split_elements].
Qed.

Lemma getChangedFilesSinceRef_lines_witness :
  exists base out,
    run Scenario.repo1 (git_merge_base (JStr "v1")) = Exit 0 base
    /\ run Scenario.repo1 (git_diff (Js.trim base)) = Exit 0 out
    /\ join (String Js.LF EmptyString) ["pkg-a/x.ts"; "pkg-b/y.ts"; "deleted.ts"]
       = Js.trim out
    /\ length ["pkg-a/x.ts"; "pkg-b/y.ts"; "deleted.ts"]
       = S (count_char Js.LF (Js.trim out))
    /\ Forall (fun f => one_line f = true) ["pkg-a/x.ts"; "pkg-b/y.ts"; "deleted.ts"].
Proof.
  apply (getChangedFilesSinceRef_lines Scenario.repo1 (JStr "v1") []
           ["pkg-a/x.ts"; "pkg-b/y.ts"; "deleted.ts"]
           [git_merge_base (JStr "v1"); git_diff "4f2a9c1"]).
  reflexivity.
Defined.

(** X6. When [master] resolves to a commit hash, [getChangedFilesSinceMaster]
    is [getChangedFilesSinceRef] at that hash, after the one [git rev-parse]
    that found it. *)
Theorem getChangedFilesSinceMaster_at_hash
    (env : Env) (fullPath : bool) (l : log) (hash : string) :
  is_commit_hash hash = true ->
  run env (git_rev_parse "master") = Exit 0 hash ->
  getChangedFilesSinceMaster env fullPath l
  = getChangedFilesSinceRef env (JStr hash) fullPath (l ++ [git_rev_parse "master"]).
Proof.
  intros Hh Hr. unfold getChangedFilesSinceMaster, getMasterRef.
  run_ok (getRef_hash env "master" l hash Hh Hr). reflexivity.
Qed.

(** In the example repository [master] is at 4f2a9c1. *)
Lemma getChangedFilesSinceMaster_at_hash_witness :
  getChangedFilesSinceMaster Scenario.repo1 true []
  = getChangedFilesSinceRef Scenario.repo1 (JStr "4f2a9c1") true [git_rev_parse "master"].
Proof.
  apply (getChangedFilesSinceMaster_at_hash Scenario.repo1 true [] "4f2a9c1");
    reflexivity.
Defined.

(** X7. [getFirstCommitByWorkspaceFolder] either throws execa's error, when
    git fails, or returns the trimmed first line of the output, a string that
    is its own trim and holds no line feed.  It does not fail on an empty
    output (a folder no commit touched): it returns the empty string. *)
Theorem getFirstCommitByWorkspaceFolder_outcomes
    (env : Env) (workspaceFolder : string) (l : log) :
  let r := run env (git_first_commit workspaceFolder) in
  let l' := l ++ [git_first_commit workspaceFolder] in
  ((forall out, r <> Exit 0 out) ->
   getFirstCommitByWorkspaceFolder env workspaceFolder l = (Throw (ExecaError r), l'))
  /\ (forall out, r = Exit 0 out ->
        exists line commit,
          Js.first (Js.split Js.LF out) = JStr line
          /\ commit = Js.trim line
          /\ getFirstCommitByWorkspaceFolder env workspaceFolder l = (Ok commit, l')
          /\ Js.trim commit = commit
          /\ one_line commit = true)
  /\ (r = Exit 0 "" ->
      getFirstCommitByWorkspaceFolder env workspaceFolder l = (Ok "", l')).
Proof.
  cbv zeta. unfold run, git_first_commit, getFirstCommitByWorkspaceFolder, bind. simpl.
  rewrite execa_run. split; [|split].
  - intros H. now rewrite (settled_throw _ H).
  - intros out Hr. rewrite Hr. simpl.
    pose proof (JsFacts.split_not_nil Js.LF out) as Hne.
    destruct (Js.first (Js.split Js.LF out)) as [| |line] eqn:E;
      try (destruct (Js.split Js.LF out); [congruence|discriminate]).
    exists line, (Js.trim line). split; [reflexivity|]. split; [reflexivity|].
    split; [reflexivity|]. split; [apply LineFacts.trim_idem|].
    apply LineFacts.all_chars_trim. eapply LineFacts.first_split_one_line, E.
  - intros Hr. rewrite Hr. reflexivity.
Qed.

(** X8. [getTags] cuts what execa hands on of git's output, that is the
    output without its final newline, at the line feeds.  It never returns the
    empty list: there is one tag more than line feeds are left, each of them
    its own trim and of one line.  When git printed tags, every one of them on
    a line ended by a line feed, the result is those tags; when it printed
    nothing, as in a repository without tags, the result is the list holding
    the empty string alone. *)
Theorem getTags_lines (env : Env) (isRevert : bool) (l : log) (out : string) :
  printed env (git_tags isRevert) = Exit 0 out ->
  exists tags,
    getTags env isRevert l = (Ok tags, l ++ [git_tags isRevert])
    /\ tags = map Js.trim (Js.split Js.LF (strip_final_newline out))
    /\ length tags = S (count_char Js.LF (strip_final_newline out))
    /\ Forall (fun t => Js.trim t = t /\ one_line t = true) tags
    /\ (out = "" -> tags = [""])
    /\ (forall names,
          names <> [] -> Forall (fun t => no_space t = true) names ->
          out = print_lines names -> tags = names).
Proof.
  intros Hr. apply run_printed in Hr.
  exists (map Js.trim (Js.split Js.LF (strip_final_newline out))).
  split; [|split; [reflexivity|split; [|split; [|split]]]].
  - unfold getTags. destruct isRevert; simpl; run_execa Hr; reflexivity.
  - rewrite length_map. apply LineFacts.length_split.
  - apply Forall_forall. intros t Ht.
    apply list_elem_of_fmap in Ht as (x & -> & Hx).
    split; [apply LineFacts.trim_idem|].
    apply LineFacts.all_chars_trim.
    pose proof (LineFacts.split_elements Js.LF (strip_final_newline out)) as Hall.
    rewrite Forall_forall in Hall. now apply Hall.
  - intros ->. reflexivity.
  - intros names Hne Hall ->.
    rewrite LineFacts.split_strip_print_lines by assumption.
    clear Hr Hne. induction Hall as [|x names Hx _ IH]; [reflexivity|].
    cbn [map]. now rewrite IH, (JsFacts.trim_id _ Hx).
Qed.

(** A repository with the tags [v1] and [v0], which git prints on a line
    each: two tags come back, not three.  And a repository without tags. *)
Lemma getTags_lines_witness :
  getTags Cases.repo_two_tags true [] = (Ok ["v1"; "v0"], [git_tags true])
  /\ getTags Cases.repo_untagged true [] = (Ok [""], [git_tags true]).
Proof.
  split.
  - destruct (getTags_lines Cases.repo_two_tags true [] (print_lines ["v1"; "v0"]) eq_refl)
      as (tags & Hrun & _ & _ & _ & _ & Hnames).
    rewrite Hrun. f_equal. f_equal. apply Hnames; [discriminate| |reflexivity].
    apply List.Forall_cons; [reflexivity|].
    apply List.Forall_cons; [reflexivity|apply List.Forall_nil].
  - destruct (getTags_lines Cases.repo_untagged true [] "" eq_refl)
      as (tags & Hrun & _ & _ & _ & Hempty & _).
    rewrite Hrun. f_equal. f_equal. now apply Hempty.
Defined.

(** X10. [addTag] spawns one [git tag -a].  A message that is left out,
    [null] or empty is replaced by the tag's own name, any other message is
    kept, and a ref that is left out is HEAD; a failing git is thrown on. *)
Theorem addTag_defaults (env : Env) (tag : string) (l : log) :
  (forall message ref,
     let m := or_else message tag in
     let r := match ref with JUndefined => JStr "HEAD" | _ => ref end in
     addTag env tag message ref l
     = (match settled (run env (git_tag_annotated tag m r)) with
        | Ok _ => Ok tt
        | Throw e => Throw e
        end, l ++ [git_tag_annotated tag m r]))
  /\ addTag env tag JUndefined JUndefined l = addTag env tag (JStr tag) (JStr "HEAD") l
  /\ (forall ref, addTag env tag (JStr "") ref l = addTag env tag (JStr tag) ref l)
  /\ (forall ref, addTag env tag JNull ref l = addTag env tag (JStr tag) ref l)
  /\ (forall c message',
        or_else (JStr (String c message')) tag = JStr (String c message')).
Proof.
  split; [|split; [|split; [|split]]].
  - intros message ref. cbv zeta.
    unfold addTag, bind. rewrite execa_run. unfold run, git_tag_annotated. simpl.
    destruct (settled _); reflexivity.
  - unfold addTag, or_else. now destruct tag.
  - intros ref. unfold addTag, or_else. now destruct tag.
  - intros ref. unfold addTag, or_else. now destruct tag.
  - reflexivity.
Qed.

(** ** workspaces.ts *)

Module OwnerFacts.

Lemma find_app_hit {A} (p : A -> bool) (l1 l2 : list A) (x : A) :
  p x = true -> exists w, List.find p (l1 ++ x :: l2) = Some w /\ w ∈ l1 ++ [x].
Proof.
  intros Hx. induction l1 as [|y l1 (w & Hw & Hin)]; simpl.
  - rewrite Hx. exists x. split; [reflexivity|left].
  - destruct (p y) eqn:Hy.
    + exists y. split; [reflexivity|left].
    + exists w. split; [exact Hw|now right].
Qed.

Lemma find_elem {A} (p : A -> bool) (l : list A) (x : A) :
  List.find p l = Some x -> x ∈ l /\ p x = true.
Proof.
  intros H. apply find_some in H as [Hin Hp]. split; [|exact Hp].
  now apply list_elem_of_In.
Qed.

Lemma string_app_assoc (a b c : string) : (a +:+ b) +:+ c = a +:+ (b +:+ c).
Proof. induction a as [|x a IH]; simpl; [reflexivity|]. now rewrite IH. Qed.

Lemma path_prefix_trans env d1 d2 file :
  path_prefix_of env d1 d2 -> path_prefix_of env d2 file -> path_prefix_of env d1 file.
Proof.
  intros [r1 ->] [r2 ->]. exists (r1 +:+ path_sep env +:+ r2).
  now rewrite !string_app_assoc.
Qed.

Lemma fileExistsInPackage_Exists env file pkgs :
  fileExistsInPackage env file pkgs = true
  <-> Exists (fun w => path_prefix_of env (dir w) file) pkgs.
Proof.
  unfold fileExistsInPackage, fileNameToPackage.
  destruct (List.find _ pkgs) as [w|] eqn:E.
  - split; [intros _|reflexivity].
    apply find_elem in E as [Hin Hp]. apply Exists_exists. exists w.
    split; [exact Hin|now apply startsWith_path_prefix].
  - split; [discriminate|]. intros H. exfalso.
    apply ListFacts.find_None_all in E. rewrite Forall_forall in E.
    apply Exists_exists in H as (w & Hin & Hp).
    apply startsWith_path_prefix in Hp. rewrite (E w Hin) in Hp. discriminate.
Qed.

End OwnerFacts.

(** X11. [fileExistsInPackage] holds exactly when the directory of some
    workspace of the list is a path-prefix of the file, so it does not depend
    on the order of the list, and it holds exactly when [fileNameToPackage]
    finds a workspace. *)
Theorem fileExistsInPackage_any_order
    (env : Env) (fileName : string) (allPackages : list IWorkspace) :
  (fileExistsInPackage env fileName allPackages = true
   <-> Exists (fun w => path_prefix_of env (dir w) fileName) allPackages)
  /\ (fileExistsInPackage env fileName allPackages = true
      <-> exists w, fileNameToPackage env fileName allPackages = Some w)
  /\ (forall reordered,
        allPackages ≡ₚ reordered ->
        fileExistsInPackage env fileName reordered
        = fileExistsInPackage env fileName allPackages).
Proof.
  split; [apply OwnerFacts.fileExistsInPackage_Exists|]. split.
  - unfold fileExistsInPackage.
    destruct (fileNameToPackage env fileName allPackages) as [w|]; split;
      eauto; try discriminate. now intros [w [=]].
  - intros reordered Hperm.
    pose proof (OwnerFacts.fileExistsInPackage_Exists env fileName allPackages) as H1.
    pose proof (OwnerFacts.fileExistsInPackage_Exists env fileName reordered) as H2.
    rewrite !Exists_exists in *.
    assert ((exists w, w ∈ allPackages /\ path_prefix_of env (dir w) fileName)
            <-> exists w, w ∈ reordered /\ path_prefix_of env (dir w) fileName) as Hiff.
    { split; intros (w & Hin & Hp); exists w; (split; [|exact Hp]).
      - now rewrite <- Hperm.
      - now rewrite Hperm. }
    destruct (fileExistsInPackage env fileName reordered),
             (fileExistsInPackage env fileName allPackages); try reflexivity.
    + apply proj1 in H2. specialize (H2 eq_refl). apply Hiff, H1 in H2. discriminate.
    + apply proj1 in H1. specialize (H1 eq_refl). apply Hiff, H2 in H1. discriminate.
Qed.

(** X12. With one workspace inside another, the one that comes first in the
    list wins: when the enclosing workspace is listed before the enclosed
    one, a file of the enclosed workspace is given to the enclosing one or to
    a workspace listed before it, never to the enclosed one behind it. *)
Theorem fileNameToPackage_first_listed_wins
    (env : Env) (fileName : string)
    (before between after : list IWorkspace) (enclosing enclosed : IWorkspace) :
  path_prefix_of env (dir enclosing) (dir enclosed) ->
  path_prefix_of env (dir enclosed) fileName ->
  exists w,
    fileNameToPackage env fileName (before ++ enclosing :: between ++ enclosed :: after)
    = Some w
    /\ w ∈ before ++ [enclosing].
Proof.
  intros Hnest Hfile. unfold fileNameToPackage.
  apply OwnerFacts.find_app_hit. apply startsWith_path_prefix.
  eapply OwnerFacts.path_prefix_trans; eassumption.
Qed.

(** /repo/packages is listed before /repo/packages/core: a file of core is
    given to the outer workspace. *)
Lemma fileNameToPackage_first_listed_wins_witness :
  exists w,
    fileNameToPackage Scenario.repo1 "/repo/packages/core/index.ts"
      ([Scenario.a] ++ Cases.outer :: [Scenario.b] ++ Cases.inner :: [])
    = Some w
    /\ w ∈ [Scenario.a] ++ [Cases.outer].
Proof.
  apply (fileNameToPackage_first_listed_wins Scenario.repo1
           "/repo/packages/core/index.ts" [Scenario.a] [Scenario.b] []
           Cases.outer Cases.inner).
  - exists "core". reflexivity.
  - exists "index.ts". reflexivity.
Defined.

(** X13. Every workspace that [getWorkspacesChangedSinceRef] returns is one
    of the packages that passed the filter, so there are never more of them
    than packages; and when no changed file lies in a package, as when only
    files outside the packages changed, the result is the empty list. *)
Theorem getWorkspacesChangedSinceRef_within_packages
    (env : Env) (ref : jsstring) (opts : IFilterOpts) (l : log)
    (results : list (option IWorkspace)) (l' : log) :
  getWorkspacesChangedSinceRef env ref opts l = (Ok results, l') ->
  exists changedFiles allPackages l1,
    getChangedFilesSinceRef env ref true l = (Ok changedFiles, l1)
    /\ getWorkspaces env opts l1 = (Ok allPackages, l')
    /\ Forall (fun r => exists w, r = Some w /\ w ∈ allPackages) results
    /\ (length results <= length allPackages)%nat
    /\ (Forall (fun f => fileNameToPackage env f allPackages = None) changedFiles ->
        results = []).
Proof.
  intros H. pose proof H as Hrun. unfold getWorkspacesChangedSinceRef in H.
  apply bind_inv_ok in H as (changedFiles & l1 & Hfiles & H).
  apply bind_inv_ok in H as (allPackages & l2 & Hpkgs & H).
  injection H as _ <-.
  rewrite (getWorkspacesChangedSinceRef_run _ _ _ _ _ _ _ _ Hfiles Hpkgs) in Hrun.
  injection Hrun as <-.
  exists changedFiles, allPackages, l1. split; [exact Hfiles|]. split; [exact Hpkgs|].
  set (owners := omap (fun f => fileNameToPackage env f allPackages) changedFiles).
  assert (forall w, w ∈ first_seen [] owners -> w ∈ allPackages) as Hin.
  { intros w Hw.
    eapply elem_of_sublist in Hw; [|apply UniqueFacts.first_seen_sublist].
    apply list_elem_of_omap in Hw as (f & _ & Hf).
    now apply OwnerFacts.find_elem in Hf as [Hf _]. }
  split; [|split].
  - apply Forall_forall. intros r Hr.
    apply list_elem_of_fmap in Hr as (w & -> & Hw). eauto.
  - rewrite length_map, <- (length_map oid (first_seen [] owners)),
      <- (length_map oid allPackages).
    apply submseteq_length, NoDup_submseteq; [apply UniqueFacts.first_seen_NoDup|].
    intros n Hn. apply list_elem_of_fmap in Hn as (w & -> & Hw).
    apply list_elem_of_fmap_2. now apply Hin.
  - intros Hnone.
    assert (owners = []) as ->; [|reflexivity].
    unfold owners. clear Hin owners Hfiles.
    induction Hnone as [|f fs Hf _ IH]; [reflexivity|].
    cbn [omap list_omap]. rewrite Hf. exact IH.
Qed.

(** In the example repository files of [a] and of [b] changed since [v1],
    and one file outside them: the result is [a] and [b], both among the two
    packages.  Where only files outside the workspaces changed, no file has
    an owner and the result is empty. *)
Lemma getWorkspacesChangedSinceRef_within_packages_witness :
  (exists allPackages,
     getWorkspaces Scenario.repo1 Scenario.no_filter
       [git_merge_base (JStr "v1"); git_diff "4f2a9c1"]
     = (Ok allPackages, [git_merge_base (JStr "v1"); git_diff "4f2a9c1"])
     /\ Forall (fun r => exists w, r = Some w /\ w ∈ allPackages)
               [Some Scenario.a; Some Scenario.b]
     /\ (length [Some Scenario.a; Some Scenario.b] <= length allPackages)%nat)
  /\ (exists changedFiles allPackages l1,
        getChangedFilesSinceRef Cases.repo_docs (JStr "v1") true []
        = (Ok changedFiles, l1)
        /\ changedFiles = ["/repo/README.md"; "/repo/docs/api.md"]
        /\ Forall (fun f => fileNameToPackage Cases.repo_docs f allPackages = None)
                  changedFiles
        /\ getWorkspacesChangedSinceRef Cases.repo_docs (JStr "v1") Scenario.no_filter []
           = (Ok [], [git_merge_base (JStr "v1"); git_diff "4f2a9c1"])).
Proof.
  split.
  - destruct (getWorkspacesChangedSinceRef_within_packages
                Scenario.repo1 (JStr "v1") Scenario.no_filter []
                [Some Scenario.a; Some Scenario.b]
                [git_merge_base (JStr "v1"); git_diff "4f2a9c1"] eq_refl)
      as (changedFiles & allPackages & l1 & Hfiles & Hpkgs & Hin & Hlen & _).
    injection Hfiles as _ <-. eauto.
  - destruct (getWorkspacesChangedSinceRef_within_packages
                Cases.repo_docs (JStr "v1") Scenario.no_filter [] []
                [git_merge_base (JStr "v1"); git_diff "4f2a9c1"] eq_refl)
      as (changedFiles & allPackages & l1 & Hfiles & Hpkgs & _).
    exists changedFiles, allPackages, l1. split; [exact Hfiles|].
    injection Hfiles as <- _. injection Hpkgs as <-.
    split; [reflexivity|]. split; [|reflexivity].
    apply List.Forall_cons; [reflexivity|].
    apply List.Forall_cons; [reflexivity|apply List.Forall_nil].
Defined.

(** *** The reference of [getChangesFromLastTagByWorkspaces] *)

Module ChangeFacts.

Lemma not_ancestor_Forall env tags :
  Forall (not_ancestor env) tags
  <-> Forall (fun t => exists out, run env (git_is_ancestor (JStr t)) = Exit 1 out) tags.
Proof. reflexivity. Qed.

(** After the tags are listed and searched, the rest runs on what the search
    gave. *)
Lemma after_search env opts l out :
  run env git_tags_newest_first = Exit 0 out ->
  getChangesFromLastTagByWorkspaces env opts l
  = match pLocate_check
            (zip (map Js.trim (Js.split Js.LF out))
                 (map (fun t => ancestry env (JStr t)) (map Js.trim (Js.split Js.LF out)))) with
    | Ok tag =>
        (let* changedFiles := getChangedFilesSinceRef env tag true in
         let* allPackages := getWorkspaces env opts in
         ret (bucket_changes env changedFiles allPackages))
          (l ++ git_tags_newest_first
             :: ancestry_commands (map Js.trim (Js.split Js.LF out)))
    | Throw e =>
        (Throw e,
         l ++ git_tags_newest_first
           :: ancestry_commands (map Js.trim (Js.split Js.LF out)))
    end.
Proof.
  intros Hout. unfold getChangesFromLastTagByWorkspaces, getTags. simpl.
  unfold bind at 1. unfold bind at 1.
  rewrite (execa_ok _ _ _ _ _ Hout). unfold ret at 1.
  unfold bind at 1. rewrite pLocate_run, <- app_assoc. simpl.
  destruct (pLocate_check _); reflexivity.
Qed.

Lemma bucket_lookup env changedFiles allPackages k :
  bucket_changes env changedFiles allPackages !! k
  = if bool_decide (k ∈ map dir allPackages)
    then Some (map (fun change => Js.at_last (Js.split (split_sep env) change))
                   (List.filter (fun f => Js.includes f k) changedFiles))
    else None.
Proof.
  unfold bucket_changes.
  rewrite (BucketFacts.foldl_insert_lookup
             (fun d => map (fun change => Js.at_last (Js.split (split_sep env) change))
                           (List.filter (fun f => Js.includes f d) changedFiles))).
  now rewrite lookup_empty.
Qed.

Lemma run_inv env opts l result l' :
  getChangesFromLastTagByWorkspaces env opts l = (Ok result, l') ->
  exists changedFiles allPackages, result = bucket_changes env changedFiles allPackages.
Proof.
  unfold getChangesFromLastTagByWorkspaces. intros H.
  apply bind_inv_ok in H as (tags & l0 & _ & H).
  apply bind_inv_ok in H as (tag & l1 & _ & H).
  apply bind_inv_ok in H as (changedFiles & l2 & _ & H).
  apply bind_inv_ok in H as (allPackages & l3 & _ & H).
  injection H as <- _. now exists changedFiles, allPackages.
Qed.

Lemma filter_sublist_impl {A} (p q : A -> bool) (l : list A) :
  (forall x, p x = true -> q x = true) ->
  sublist (List.filter p l) (List.filter q l).
Proof.
  intros Hpq. induction l as [|x l IH]; simpl; [constructor|].
  destruct (p x) eqn:Hp.
  - rewrite (Hpq x Hp). now constructor.
  - destruct (q x); [now constructor|exact IH].
Qed.

Lemma includes_trans f outer_part inner_part :
  Js.includes f outer_part = true -> contains outer_part inner_part ->
  Js.includes f inner_part = true.
Proof.
  rewrite !JsFacts.includes_iff. intros (a & b & ->) (a' & b' & ->).
  exists (a +:+ a'), (b' +:+ b).
  now rewrite !OwnerFacts.string_app_assoc.
Qed.

End ChangeFacts.

(** X14. [getChangesFromLastTagByWorkspaces] compares against the first tag,
    in git's newest-first listing, that is an ancestor of HEAD: once the
    ancestry of every listed tag has been asked for, the changed files are
    those since that tag. *)
Theorem getChangesFromLastTagByWorkspaces_reference
    (env : Env) (opts : IFilterOpts) (l : log) (out t : string) :
  run env git_tags_newest_first = Exit 0 out ->
  first_ancestor env (map Js.trim (Js.split Js.LF out)) t ->
  getChangesFromLastTagByWorkspaces env opts l
  = (let* changedFiles := getChangedFilesSinceRef env (JStr t) true in
     let* allPackages := getWorkspaces env opts in
     ret (bucket_changes env changedFiles allPackages))
      (l ++ git_tags_newest_first
         :: ancestry_commands (map Js.trim (Js.split Js.LF out))).
Proof.
  intros Hout Ht. rewrite (ChangeFacts.after_search _ _ _ _ Hout).
  apply pLocate_check_first_ancestor in Ht. now rewrite Ht.
Qed.

(** In the example repository the tags are [v1] and [v0] and [v1] is an
    ancestor: the files are those changed since [v1]. *)
Lemma getChangesFromLastTagByWorkspaces_reference_witness :
  getChangesFromLastTagByWorkspaces Scenario.repo1 Scenario.no_filter []
  = (let* changedFiles := getChangedFilesSinceRef Scenario.repo1 (JStr "v1") true in
     let* allPackages := getWorkspaces Scenario.repo1 Scenario.no_filter in
     ret (bucket_changes Scenario.repo1 changedFiles allPackages))
      [git_tags_newest_first; git_is_ancestor (JStr "v1"); git_is_ancestor (JStr "v0")].
Proof.
  apply (getChangesFromLastTagByWorkspaces_reference Scenario.repo1 Scenario.no_filter []
           ("v1" +:+ Scenario.LF +:+ "v0") "v1"); [reflexivity|].
  exists [], ["v0"]. split; [reflexivity|]. split; [constructor|].
  exists "". reflexivity.
Defined.

(** X15. When none of the listed tags is an ancestor of HEAD, the search
    gives [undefined], which the [null] test of [getChangedFilesSinceRef] lets
    through: git is asked for the merge-base of undefined and HEAD, and when
    it knows no such ref the call ends in execa's error for that command, not
    in the error for a missing ref. *)
Theorem getChangesFromLastTagByWorkspaces_no_ancestor
    (env : Env) (opts : IFilterOpts) (l : log) (out : string) :
  run env git_tags_newest_first = Exit 0 out ->
  Forall (not_ancestor env) (map Js.trim (Js.split Js.LF out)) ->
  getChangesFromLastTagByWorkspaces env opts l
  = (let* changedFiles := getChangedFilesSinceRef env JUndefined true in
     let* allPackages := getWorkspaces env opts in
     ret (bucket_changes env changedFiles allPackages))
      (l ++ git_tags_newest_first
         :: ancestry_commands (map Js.trim (Js.split Js.LF out)))
  /\ ((forall base, run env (git_merge_base JUndefined) <> Exit 0 base) ->
      getChangesFromLastTagByWorkspaces env opts l
      = (Throw (ExecaError (run env (git_merge_base JUndefined))),
         (l ++ git_tags_newest_first
            :: ancestry_commands (map Js.trim (Js.split Js.LF out)))
         ++ [git_merge_base JUndefined])).
Proof.
  intros Hout Hnone.
  assert (getChangesFromLastTagByWorkspaces env opts l
          = (let* changedFiles := getChangedFilesSinceRef env JUndefined true in
             let* allPackages := getWorkspaces env opts in
             ret (bucket_changes env changedFiles allPackages))
              (l ++ git_tags_newest_first
                 :: ancestry_commands (map Js.trim (Js.split Js.LF out)))) as Heq.
  { rewrite (ChangeFacts.after_search _ _ _ _ Hout).
    apply ChangeFacts.not_ancestor_Forall, pLocate_check_undefined in Hnone.
    now rewrite Hnone. }
  split; [exact Heq|]. intros Hfail. rewrite Heq.
  apply bind_throw. unfold getChangedFilesSinceRef.
  destruct (decide (JUndefined = JNull)); [discriminate|].
  apply bind_throw. rewrite execa_run.
  unfold run, git_merge_base in *. simpl in *. now rewrite (settled_throw _ Hfail).
Qed.

(** HEAD descends from neither [v2] nor [v1], and git knows no ref called
    undefined. *)
Lemma getChangesFromLastTagByWorkspaces_no_ancestor_witness :
  getChangesFromLastTagByWorkspaces Cases.repo_detached Scenario.no_filter []
  = (Throw (ExecaError (Exit 128 "")),
     [git_tags_newest_first; git_is_ancestor (JStr "v2"); git_is_ancestor (JStr "v1");
      git_merge_base JUndefined]).
Proof.
  assert (Forall (not_ancestor Cases.repo_detached) ["v2"; "v1"]) as Hnone.
  { apply List.Forall_cons; [exists ""; reflexivity|].
    apply List.Forall_cons; [exists ""; reflexivity|]. apply List.Forall_nil. }
  apply (proj2 (getChangesFromLastTagByWorkspaces_no_ancestor
                  Cases.repo_detached Scenario.no_filter []
                  ("v2" +:+ Scenario.LF +:+ "v1") eq_refl Hnone)).
  intros base. vm_compute. discriminate.
Defined.

(** X16. The changed files are sorted into the workspaces by looking for the
    directory anywhere in the path, so a directory that occurs in another one
    (/repo/pkg-a in /repo/pkg-ab) collects the other's files too: whatever is
    listed under the longer directory is listed, in the same order, under the
    shorter one. *)
Theorem getChangesFromLastTagByWorkspaces_contained_directory
    (env : Env) (opts : IFilterOpts) (l : log)
    (result : gmap string (list jsstring)) (l' : log) :
  getChangesFromLastTagByWorkspaces env opts l = (Ok result, l') ->
  forall shorter longer names_shorter names_longer,
    contains longer shorter ->
    result !! shorter = Some names_shorter ->
    result !! longer = Some names_longer ->
    sublist names_longer names_shorter.
Proof.
  intros H shorter longer ns nl Hc Hs Hl.
  apply ChangeFacts.run_inv in H as (changedFiles & allPackages & ->).
  rewrite ChangeFacts.bucket_lookup in Hs, Hl.
  destruct (bool_decide (shorter ∈ map dir allPackages)); [|discriminate].
  destruct (bool_decide (longer ∈ map dir allPackages)); [|discriminate].
  injection Hs as <-. injection Hl as <-.
  apply (fmap_sublist (fun change => Js.at_last (Js.split (split_sep env) change))),
    ChangeFacts.filter_sublist_impl.
  intros f Hf. eapply ChangeFacts.includes_trans; eassumption.
Qed.

(** z.ts of /repo/pkg-ab is also listed under /repo/pkg-a. *)
Lemma getChangesFromLastTagByWorkspaces_contained_directory_witness :
  getChangesFromLastTagByWorkspaces Cases.repo_overlap Scenario.no_filter []
  = (Ok (<["/repo/pkg-ab" := [JStr "z.ts"]]>
           {[ "/repo/pkg-a" := [JStr "z.ts"; JStr "x.ts"] ]}),
     [git_tags_newest_first; git_is_ancestor (JStr "v1");
      git_merge_base (JStr "v1"); git_diff "4f2a9c1"])
  /\ sublist [JStr "z.ts"] [JStr "z.ts"; JStr "x.ts"].
Proof.
  split; [reflexivity|].
  apply (getChangesFromLastTagByWorkspaces_contained_directory
           Cases.repo_overlap Scenario.no_filter []
           (<["/repo/pkg-ab" := [JStr "z.ts"]]>
              {[ "/repo/pkg-a" := [JStr "z.ts"; JStr "x.ts"] ]})
           [git_tags_newest_first; git_is_ancestor (JStr "v1");
            git_merge_base (JStr "v1"); git_diff "4f2a9c1"]
           eq_refl "/repo/pkg-a" "/repo/pkg-ab").
  - exists "", "b". reflexivity.
  - reflexivity.
  - reflexivity.
Defined.

(** *** Versions: tags that do not resolve, and repositories without tags *)

Module VersionFacts.

Lemma pLocate_check_throw env before t after :
  Forall (not_ancestor env) before ->
  (forall out, run env (git_is_ancestor (JStr t)) <> Exit 0 out) ->
  (forall out, run env (git_is_ancestor (JStr t)) <> Exit 1 out) ->
  pLocate_check
    (zip (before ++ t :: after)
         (map (fun t => ancestry env (JStr t)) (before ++ t :: after)))
  = Throw (ExecaError (run env (git_is_ancestor (JStr t)))).
Proof.
  intros Hb H0 H1. induction Hb as [|x before Hx _ IH]; simpl.
  - unfold ancestry.
    destruct (run env (git_is_ancestor (JStr t))) as [[|p|p] out| |];
      try reflexivity; [now destruct (H0 out)|].
    destruct p; try reflexivity. now destruct (H1 out).
  - apply ancestry_false in Hx. now rewrite Hx.
Qed.

Lemma startsWith_empty name : name <> "" -> Js.startsWith "" name = false.
Proof. destruct name; [congruence|reflexivity]. Qed.

(** One rejected promise rejects the whole of [Promise.all]. *)
Lemma Promise_all_rejected {A} (ms : list (M A)) (m : M A) l :
  m ∈ ms ->
  (forall l1, exists e l2, m l1 = (Throw e, l2)) ->
  exists e l', Promise_all ms l = (Throw e, l').
Proof.
  intros Hin Hm. unfold Promise_all.
  destruct (all_settled ms l) as [os l'] eqn:E.
  assert (exists e, Throw e ∈ os) as [e He].
  { revert l os l' E. induction ms as [|m' ms IH]; intros l os l' E.
    - now apply elem_of_nil in Hin.
    - simpl in E. destruct (m' l) as [o l1] eqn:Ho.
      destruct (all_settled ms l1) as [os' l2] eqn:Hos. injection E as <- _.
      apply elem_of_cons in Hin as [<-|Hin].
      + destruct (Hm l) as (e & l2' & Hl). rewrite Hl in Ho. injection Ho as <- _.
        exists e. left.
      + destruct (IH Hin _ _ _ Hos) as [e He]. exists e. now right. }
  clear E. induction os as [|[a|e'] os IH]; simpl.
  - now apply elem_of_nil in He.
  - apply elem_of_cons in He as [He|He]; [discriminate|].
    destruct (IH He) as (e1 & l1 & H1). injection H1 as H1 _.
    rewrite H1. eauto.
  - eauto.
Qed.

Lemma remove_first_short s p :
  (String.length s < String.length p)%nat -> Js.remove_first s p = s.
Proof.
  revert p. induction s as [|c s IH]; intros p Hlen.
  - destruct p; [simpl in Hlen; lia|reflexivity].
  - simpl. assert (Js.startsWith (String c s) p = false) as ->.
    { clear IH. revert p Hlen. generalize (String c s) as t.
      induction t as [|x t IH]; intros p Hlen.
      - destruct p; [simpl in Hlen; lia|reflexivity].
      - destruct p as [|y p]; [simpl in Hlen; lia|]. simpl.
        rewrite IH by (simpl in Hlen; lia). apply andb_false_r. }
    f_equal. apply IH. simpl in Hlen. lia.
Qed.

Lemma length_append (a b : string) :
  String.length (a +:+ b) = (String.length a + String.length b)%nat.
Proof. induction a as [|x a IH]; simpl; [reflexivity|]. now rewrite IH. Qed.

End VersionFacts.

(** X17. A workspace that has tags of which none resolves gets no version.
    When every tag handed to [getNextVersion] is reported as no ancestor of
    HEAD, the call ends in the TypeError of reading [replace] on [undefined];
    when a check fails otherwise before an ancestor is found, the call ends in
    that failure, whatever the later tags are.  In both cases the ancestry
    checks are all that was spawned: the commits were never analysed. *)
Theorem getNextVersion_unresolved_tags
    (env : Env) (tags : list string) (w : IWorkspace) (l : log) :
  tags <> [] ->
  (Forall (not_ancestor env) tags ->
   getNextVersion env tags w l
   = (Throw (TypeError "Cannot read property 'replace' of undefined"),
      l ++ ancestry_commands tags))
  /\ (forall before t after,
        tags = before ++ t :: after ->
        Forall (not_ancestor env) before ->
        (forall out, run env (git_is_ancestor (JStr t)) <> Exit 0 out) ->
        (forall out, run env (git_is_ancestor (JStr t)) <> Exit 1 out) ->
        getNextVersion env tags w l
        = (Throw (ExecaError (run env (git_is_ancestor (JStr t)))),
           l ++ ancestry_commands tags)).
Proof.
  intros Hne. split.
  - intros Hnone. rewrite getNextVersion_tags by exact Hne.
    apply ChangeFacts.not_ancestor_Forall, pLocate_check_undefined in Hnone.
    now rewrite Hnone.
  - intros before t after -> Hb H0 H1. rewrite getNextVersion_tags by exact Hne.
    now rewrite VersionFacts.pLocate_check_throw.
Qed.

(** In the tagged repository HEAD does not descend from [b-2.0.0], the only
    tag of [b]; and a tag git has never heard of stops the search with exit
    code 128 although [a-1.4.0] behind it is an ancestor. *)
Lemma getNextVersion_unresolved_tags_witness :
  getNextVersion Scenario.repo_tagged ["b-2.0.0"] Scenario.b []
  = (Throw (TypeError "Cannot read property 'replace' of undefined"),
     [git_is_ancestor (JStr "b-2.0.0")])
  /\ getNextVersion Scenario.repo_tagged ["a-9.9.9"; "a-1.4.0"] Scenario.a []
     = (Throw (ExecaError (Exit 128 "")),
        [git_is_ancestor (JStr "a-9.9.9"); git_is_ancestor (JStr "a-1.4.0")]).
Proof.
  split.
  - apply (proj1 (getNextVersion_unresolved_tags Scenario.repo_tagged ["b-2.0.0"]
                    Scenario.b [] ltac:(discriminate))).
    apply List.Forall_cons; [exists ""; reflexivity|apply List.Forall_nil].
  - apply (proj2 (getNextVersion_unresolved_tags Scenario.repo_tagged
                    ["a-9.9.9"; "a-1.4.0"] Scenario.a [] ltac:(discriminate))
             [] "a-9.9.9" ["a-1.4.0"] eq_refl (List.Forall_nil _)).
    + intros out. vm_compute. discriminate.
    + intros out. vm_compute. discriminate.
Defined.

(** X18. Nothing is returned for a batch in which one workspace has tags of
    which none is an ancestor of HEAD: [getNextVersionsByWorkspaces] throws,
    also when every other workspace would have got its version. *)
Theorem getNextVersionsByWorkspaces_no_partial_results
    (env : Env) (workspaces : list IWorkspace) (l : log) (out : string) (w : IWorkspace) :
  run env git_tags_newest_first = Exit 0 out ->
  w ∈ workspaces ->
  candidates (map Js.trim (Js.split Js.LF out)) w <> [] ->
  Forall (not_ancestor env) (candidates (map Js.trim (Js.split Js.LF out)) w) ->
  exists e l', getNextVersionsByWorkspaces env workspaces l = (Throw e, l').
Proof.
  intros Hout Hw Hne Hnone.
  unfold getNextVersionsByWorkspaces, getTags. simpl.
  erewrite bind_ok; [|run_execa Hout; reflexivity].
  eapply (VersionFacts.Promise_all_rejected _
            (getNextVersion env (candidates (map Js.trim (Js.split Js.LF out)) w) w)).
  - apply (list_elem_of_fmap_2
             (fun workspace =>
                getNextVersion env
                  (List.filter (fun tag => Js.startsWith tag (getName workspace))
                               (map Js.trim (Js.split Js.LF out)))
                  workspace)
             workspaces w Hw).
  - intros l1. eexists _, _. rewrite getNextVersion_tags by exact Hne.
    apply ChangeFacts.not_ancestor_Forall, pLocate_check_undefined in Hnone.
    rewrite Hnone. reflexivity.
Qed.

(** In the tagged repository [a] would get 1.5.0, but [b]'s only tag is no
    ancestor of HEAD. *)
Lemma getNextVersionsByWorkspaces_no_partial_results_witness :
  exists e l',
    getNextVersionsByWorkspaces Scenario.repo_tagged [Scenario.a; Scenario.b] []
    = (Throw e, l').
Proof.
  apply (getNextVersionsByWorkspaces_no_partial_results
           Scenario.repo_tagged [Scenario.a; Scenario.b] []
           ("b-2.0.0" +:+ Scenario.LF +:+ "a-1.5.0" +:+ Scenario.LF +:+ "a-1.4.0")
           Scenario.b eq_refl).
  - right. left.
  - discriminate.
  - apply List.Forall_cons; [exists ""; reflexivity|apply List.Forall_nil].
Defined.

(** X19. In a repository without tags [git tag] prints nothing, [getTags]
    gives the list holding the empty string, and every workspace whose name
    is not empty is handed no tag at all: each starts from its first commit
    and its recorded version. *)
Theorem getNextVersionsByWorkspaces_without_tags
    (env : Env) (workspaces : list IWorkspace) (l : log) :
  run env git_tags_newest_first = Exit 0 "" ->
  Forall (fun w => getName w <> "") workspaces ->
  getNextVersionsByWorkspaces env workspaces l
  = Promise_all (map (fun w => getNextVersion env [] w) workspaces)
                (l ++ [git_tags_newest_first]).
Proof.
  intros Hout Hnames.
  unfold getNextVersionsByWorkspaces, getTags. simpl.
  erewrite bind_ok; [|run_execa Hout; reflexivity].
  assert (map (fun tag => Js.trim tag) (Js.split Js.LF "") = [""]) as -> by reflexivity.
  f_equal. induction Hnames as [|w ws Hw _ IH]; [reflexivity|].
  cbn [map]. rewrite IH. f_equal.
  cbn [List.filter]. now rewrite (VersionFacts.startsWith_empty _ Hw).
Qed.

Lemma getNextVersionsByWorkspaces_without_tags_witness :
  getNextVersionsByWorkspaces Cases.repo_untagged [Scenario.a; Scenario.b] []
  = (Ok [ {[ "a" := Some "1.2.1" ]}; {[ "b" := Some "2.0.1" ]} ],
     [git_tags_newest_first; git_first_commit "pkg-a"; git_first_commit "pkg-b"]).
Proof.
  rewrite (getNextVersionsByWorkspaces_without_tags Cases.repo_untagged
             [Scenario.a; Scenario.b] [] eq_refl).
  - reflexivity.
  - apply List.Forall_cons; [discriminate|].
    apply List.Forall_cons; [discriminate|apply List.Forall_nil].
Defined.

(** X20. The folder handed to git and to the commit analysis is the
    workspace's directory without the working directory in front: for a
    workspace below the working directory it is the relative path, and for a
    workspace that is the working directory itself nothing is removed and the
    absolute path is handed on. *)
Theorem getNextVersion_folder (env : Env) (w : IWorkspace) (l : log) :
  (forall relative,
     dir w = (cwd env +:+ path_sep env) +:+ relative ->
     getNextVersion env [] w l
     = (let* ref := getFirstCommitByWorkspaceFolder env relative in
        let* releaseType := analyzeCommitsSinceRef env (JStr ref) relative in
        ret {[ getName w := Semver.inc (getVersion w) releaseType ]}) l)
  /\ (dir w = cwd env ->
      getNextVersion env [] w l
      = (let* ref := getFirstCommitByWorkspaceFolder env (cwd env) in
         let* releaseType := analyzeCommitsSinceRef env (JStr ref) (cwd env) in
         ret {[ getName w := Semver.inc (getVersion w) releaseType ]}) l).
Proof.
  split.
  - intros relative Hdir. rewrite getNextVersion_no_tags. unfold folder_of.
    now rewrite Hdir, JsFacts.remove_first_prefix.
  - intros Hdir. rewrite getNextVersion_no_tags. unfold folder_of.
    rewrite Hdir, VersionFacts.remove_first_short; [reflexivity|].
    rewrite VersionFacts.length_append. unfold path_sep.
    destruct (isWin env); simpl; lia.
Qed.

(** In the repository without tags [a] lies in /repo/pkg-a below the working
    directory /repo: git is asked about pkg-a. *)
Lemma getNextVersion_folder_witness :
  getNextVersion Cases.repo_untagged [] Scenario.a []
  = (Ok {[ "a" := Some "1.2.1" ]}, [git_first_commit "pkg-a"]).
Proof.
  rewrite (proj1 (getNextVersion_folder Cases.repo_untagged Scenario.a []) "pkg-a" eq_refl).
  reflexivity.
Defined.

(** X21. The tags of a workspace are chosen by its name alone, and the
    hyphen is only removed afterwards.  So a tag of a workspace whose name is
    this one's name, a hyphen and more is a candidate for this one too; when
    it is the first ancestor among the tags handed over, the current version
    is taken to be the rest of the other name, a hyphen and the other's
    version. *)
Theorem getNextVersion_tag_of_longer_name
    (env : Env) (w : IWorkspace) (more version : string) :
  let t := (getName w +:+ "-") +:+ (more +:+ "-" +:+ version) in
  (forall all_tags, t ∈ all_tags -> t ∈ candidates all_tags w)
  /\ (forall tags l,
        first_ancestor env tags t ->
        getNextVersion env tags w l
        = (let* releaseType := analyzeCommitsSinceRef env (JStr t) (folder_of env w) in
           ret {[ getName w := Semver.inc (more +:+ "-" +:+ version) releaseType ]})
            (l ++ ancestry_commands tags)).
Proof.
  cbv zeta. split.
  - intros all_tags Hin. unfold candidates.
    apply list_elem_of_In, filter_In. split; [now apply list_elem_of_In|].
    rewrite OwnerFacts.string_app_assoc. apply JsFacts.startsWith_app.
  - intros tags l Ht.
    assert (tags <> []) as Hne.
    { destruct Ht as (before & after & -> & _). now destruct before. }
    rewrite getNextVersion_tags by exact Hne.
    apply pLocate_check_first_ancestor in Ht. rewrite Ht.
    now rewrite JsFacts.remove_first_prefix.
Qed.

(** The tag ui-kit-2.0.0 of [ui-kit] is a candidate for [ui], whose current
    version becomes kit-2.0.0, which no increment applies to. *)
Lemma getNextVersion_tag_of_longer_name_witness :
  "ui-kit-2.0.0" ∈ candidates ["ui-kit-2.0.0"; "ui-1.0.0"] Scenario.ui
  /\ getNextVersion Scenario.repo_ui ["ui-kit-2.0.0"; "ui-1.0.0"] Scenario.ui []
     = (Ok {[ "ui" := None ]},
        [git_is_ancestor (JStr "ui-kit-2.0.0"); git_is_ancestor (JStr "ui-1.0.0")]).
Proof.
  destruct (getNextVersion_tag_of_longer_name Scenario.repo_ui Scenario.ui "kit" "2.0.0")
    as [Hcand Hrun].
  split.
  - apply Hcand. left.
  - rewrite (Hrun ["ui-kit-2.0.0"; "ui-1.0.0"] []); [reflexivity|].
    exists [], ["ui-1.0.0"]. split; [reflexivity|]. split; [constructor|].
    exists "". reflexivity.
Defined.

(** X22. When nothing changed, the diff is empty and the one changed file is
    what [path.resolve] makes of the empty string, the working directory.
    [getWorkspacesChangedSinceRef] then returns the empty list, unless the
    working directory lies inside a workspace: then that workspace is
    reported as changed. *)
Theorem getWorkspacesChangedSinceRef_nothing_changed
    (env : Env) (ref : jsstring) (opts : IFilterOpts) (l : log)
    (base out : string) (allPackages : list IWorkspace) :
  ref <> JNull ->
  run env (git_merge_base ref) = Exit 0 base ->
  run env (git_diff (Js.trim base)) = Exit 0 out ->
  Js.trim out = "" ->
  project_packages env = Ok allPackages ->
  getWorkspacesChangedSinceRef env ref opts l
  = (Ok match fileNameToPackage env (path_resolve env "")
                (filterPackages env allPackages opts) with
        | Some w => [Some w]
        | None => []
        end,
     l ++ [git_merge_base ref; git_diff (Js.trim base)]).
Proof.
  intros Hnull Hbase Hdiff Hout Hpkgs.
  assert (getChangedFilesSinceRef env ref true l
          = (Ok [path_resolve env ""], l ++ [git_merge_base ref; git_diff (Js.trim base)]))
    as Hfiles.
  { unfold getChangedFilesSinceRef. destruct (decide (ref = JNull)); [contradiction|].
    run_execa Hbase. run_execa Hdiff. now rewrite Hout, <- app_assoc. }
  assert (getWorkspaces env opts (l ++ [git_merge_base ref; git_diff (Js.trim base)])
          = (Ok (filterPackages env allPackages opts),
             l ++ [git_merge_base ref; git_diff (Js.trim base)])) as Hws.
  { unfold getWorkspaces, bind, of_outcome. now rewrite Hpkgs. }
  rewrite (getWorkspacesChangedSinceRef_run _ _ _ _ _ _ _ _ Hfiles Hws).
  cbn [omap list_omap].
  now destruct (fileNameToPackage env (path_resolve env "")
                  (filterPackages env allPackages opts)).
Qed.

(** In the clean repository the working directory /repo is in no workspace
    and nothing is reported; run from /repo/pkg-a/src, the same repository
    reports [a]. *)
Lemma getWorkspacesChangedSinceRef_nothing_changed_witness :
  getWorkspacesChangedSinceRef Scenario.repo_clean (JStr "v1") Scenario.no_filter []
  = (Ok [], [git_merge_base (JStr "v1"); git_diff "4f2a9c1"])
  /\ getWorkspacesChangedSinceRef Cases.repo_inside (JStr "v1") Scenario.no_filter []
     = (Ok [Some Scenario.a], [git_merge_base (JStr "v1"); git_diff "4f2a9c1"]).
Proof.
  split.
  - rewrite (getWorkspacesChangedSinceRef_nothing_changed
               Scenario.repo_clean (JStr "v1") Scenario.no_filter [] "4f2a9c1" ""
               [Scenario.a; Scenario.b]); [reflexivity|discriminate|reflexivity..].
  - rewrite (getWorkspacesChangedSinceRef_nothing_changed
               Cases.repo_inside (JStr "v1") Scenario.no_filter [] "4f2a9c1" ""
               [Scenario.a; Scenario.b]); [reflexivity|discriminate|reflexivity..].
Defined.
